(** * Navigation tree, content store and landing page of the documentation site

    A shallow embedding of the site's own declarative code:
    - [sidebars.ts]: the sidebar configuration (the Navigation Tree);
    - the markdown documents under [docs/] with their front-matter;
    - the [HomepageFeatures] React component and its [FeatureList];
    - the code the guides carry: the OPA policy [security.rego], the report
      script and the secrets gate of the security pipeline, and the
      [BLEDiagnostics] class of the Bluetooth guide.

    The object literal exported by [sidebars.ts] is a map from sidebar names
    to item sequences, so it is a [gmap string _]; the item sequences are
    ordered and are lists. *)

From Stdlib Require Import ZArith Ascii String List Lia Sorted Permutation.
From stdpp Require Import base option list strings gmap pretty.
Import ListNotations.

Local Open Scope string_scope.
Local Open Scope list_scope.

(** ** Sidebar items ([@docusaurus/plugin-content-docs], as used by sidebars.ts)

    An entry of an [items] array is either a string (shorthand for a document
    reference) or an object [{type: 'category', label, items}]. *)

Module Sidebar.

#[local] Unset Elimination Schemes.

Inductive SidebarItem : Type :=
| Doc (id : string)
| Category (label : string) (items : list SidebarItem).

#[local] Set Elimination Schemes.

(** Induction over items with the hypothesis available for every member of a
    category's [items]. *)
Section Induction.
Variable P : SidebarItem -> Prop.
Hypothesis P_doc : forall id, P (Doc id).
Hypothesis P_category :
  forall label items, Forall P items -> P (Category label items).

Fixpoint SidebarItem_tree_ind (t : SidebarItem) : P t :=
  match t with
  | Doc id => P_doc id
  | Category label items =>
      P_category label items
        ((fix all (l : list SidebarItem) : Forall P l :=
            match l with
            | [] => @List.Forall_nil _ P
            | x :: r => @List.Forall_cons _ P x r (SidebarItem_tree_ind x) (all r)
            end) items)
  end.
End Induction.

(** [SidebarsConfig]: sidebar name to ordered items. *)
Abbreviation SidebarsConfig := (gmap string (list SidebarItem)).

(** sidebars.ts, lines 17-36: the value of the [tutorialSidebar] key. *)
Definition tutorialSidebar : list SidebarItem :=
  [ Category "Ariba DevOps"
      [ Doc "Ariba DevOps/intro";
        Doc "Ariba DevOps/aks-terraform-deployment";
        Doc "Ariba DevOps/azure-functions-powershell";
        Doc "Ariba DevOps/bluetooth-ble-troubleshooting";
        Doc "Ariba DevOps/azure-devops-security-pipeline" ];
    Category "CN Org Structure"
      [ Doc "CN Org Structure/organizational-structure" ] ].

(** sidebars.ts, lines 15-37: [const sidebars: SidebarsConfig = {...}]. *)
Definition sidebars : SidebarsConfig :=
  {[ "tutorialSidebar" := tutorialSidebar ]}.

(** The Navigation Tree is the root sequence of the one sidebar the
    configuration declares. *)
Definition navigationTree : list SidebarItem :=
  default [] (sidebars !! "tutorialSidebar").

(** *** Pre-order traversal

    No function of the sources walks the tree: the walk is the site
    generator's. [preorder] is the usual pre-order of an ordered tree, the
    notion the properties below are stated with: a document reference is
    visited where it stands, a category is entered and its items are walked
    left to right. *)
Fixpoint preorder (t : SidebarItem) : list string :=
  match t with
  | Doc id => [id]
  | Category _ items => flat_map preorder items
  end.

Definition traversal (root : list SidebarItem) : list string :=
  flat_map preorder root.

(** Traversal of every sidebar of a configuration, sidebars taken in key
    order of the map. *)
Definition traverse_config (cfg : SidebarsConfig) : list string :=
  flat_map (fun kv => traversal kv.2) (map_to_list cfg).

(** Last segment of a document path ([category/slug] gives [slug]). *)
Fixpoint slug_from (acc : string) (s : string) : string :=
  match s with
  | EmptyString => acc
  | String c r =>
      if Ascii.eqb c "/"%char then slug_from r r else slug_from acc r
  end.

Definition slug (path : string) : string := slug_from path path.

(** *** Structure of a tree *)

(** [references t p]: the path [p] stands as a document reference somewhere
    in [t]. *)
Inductive references : SidebarItem -> string -> Prop :=
| ref_doc p : references (Doc p) p
| ref_category label items c p :
    In c items -> references c p -> references (Category label items) p.

Definition referenced (root : list SidebarItem) (p : string) : Prop :=
  exists t, In t root /\ references t p.

(** Number of places at which [p] is referenced. *)
Fixpoint occurrences (p : string) (t : SidebarItem) : nat :=
  match t with
  | Doc id => if String.eqb id p then 1 else 0
  | Category _ items =>
      fold_right (fun c acc => occurrences p c + acc) 0 items
  end.

Definition occurrences_in (p : string) (root : list SidebarItem) : nat :=
  fold_right (fun c acc => occurrences p c + acc) 0 root.

(** Nesting depth: a document reference is one level, a category one level
    more than its deepest item. *)
Fixpoint depth (t : SidebarItem) : nat :=
  match t with
  | Doc _ => 1
  | Category _ items =>
      S (fold_right (fun c acc => Nat.max (depth c) acc) 0 items)
  end.

Definition depth_of (root : list SidebarItem) : nat :=
  fold_right (fun c acc => Nat.max (depth c) acc) 0 root.

Definition is_doc (t : SidebarItem) : bool :=
  match t with
  | Doc _ => true
  | Category _ _ => false
  end.

Definition is_category (t : SidebarItem) : bool := negb (is_doc t).

Definition label_of (t : SidebarItem) : option string :=
  match t with
  | Doc _ => None
  | Category label _ => Some label
  end.

Definition items_of (t : SidebarItem) : list SidebarItem :=
  match t with
  | Doc _ => []
  | Category _ items => items
  end.

(** A chain of [n] categories around one document. *)
Fixpoint nest (n : nat) (p : string) : SidebarItem :=
  match n with
  | O => Doc p
  | S k => Category "nested" [nest k p]
  end.

(** Number of nodes. *)
Fixpoint size (t : SidebarItem) : nat :=
  match t with
  | Doc _ => 1
  | Category _ items => S (fold_right (fun c acc => size c + acc) 0 items)
  end.

(** [child c t]: [c] is one of the items of the category [t]. *)
Inductive child : SidebarItem -> SidebarItem -> Prop :=
| child_of label items c : In c items -> child c (Category label items).

(** [descendant c t]: [c] lies strictly below [t]. *)
Inductive descendant : SidebarItem -> SidebarItem -> Prop :=
| desc_child c t : child c t -> descendant c t
| desc_step c m t : descendant c m -> child m t -> descendant c t.

(** The nodes of a tree, itself first. *)
Fixpoint nodes (t : SidebarItem) : list SidebarItem :=
  t :: match t with
       | Doc _ => []
       | Category _ items => flat_map nodes items
       end.

(** *** Leaves with the category that immediately encloses them *)

Fixpoint enclosed (t : SidebarItem) : list (string * string) :=
  match t with
  | Doc _ => []
  | Category label items =>
      flat_map (fun c => match c with
                         | Doc id => [(label, id)]
                         | Category _ _ => enclosed c
                         end) items
  end.

Definition enclosed_in (root : list SidebarItem) : list (string * string) :=
  flat_map enclosed root.

(** [leaf_under t label p]: within [t], the document reference [p] is an
    item of a category labelled [label]. *)
Inductive leaf_under : SidebarItem -> string -> string -> Prop :=
| leaf_here label items p :
    In (Doc p) items -> leaf_under (Category label items) label p
| leaf_below label items c l p :
    In c items -> leaf_under c l p -> leaf_under (Category label items) l p.

Definition leaf_under_root (root : list SidebarItem) (label p : string)
  : Prop :=
  exists t, In t root /\ leaf_under t label p.

(** Split at the first ['/']. *)
Fixpoint split_slash (s : string) : option (string * string) :=
  match s with
  | EmptyString => None
  | String c r =>
      if Ascii.eqb c "/"%char then Some (EmptyString, r)
      else match split_slash r with
           | Some (a, b) => Some (String c a, b)
           | None => None
           end
  end.

Fixpoint has_slash (s : string) : bool :=
  match s with
  | EmptyString => false
  | String c r => Ascii.eqb c "/"%char || has_slash r
  end.

(** [p] is [label/slug] with a non-empty [slug] free of ['/']. *)
Definition two_segments (label p : string) : bool :=
  match split_slash p with
  | Some (a, b) =>
      String.eqb a label && negb (String.eqb b "") && negb (has_slash b)
  | None => false
  end.

End Sidebar.

(** ** Content Store: the markdown documents and their front-matter *)

Module Content.

(** A content file as the repository holds it: its name below the site root,
    the lines between the two [---] fences that open it, and the first-level
    heading that opens its body (the body itself is opaque to this layer). *)
Record ContentFile : Type := mkContentFile {
  file : string;
  frontmatter : list string;
  heading : string
}.

(** *** Reading the front-matter

    The block holds [key: value] lines; [sidebar_position] is read as a
    decimal integer. *)

Fixpoint strip_prefix (p s : string) : option string :=
  match p, s with
  | EmptyString, _ => Some s
  | String a p', String b s' =>
      if Ascii.eqb a b then strip_prefix p' s' else None
  | String _ _, EmptyString => None
  end.

Fixpoint trim_left (s : string) : string :=
  match s with
  | String " " r => trim_left r
  | _ => s
  end.

Definition digit (c : ascii) : option Z :=
  let n := Z.of_nat (nat_of_ascii c) in
  if (48 <=? n)%Z && (n <=? 57)%Z then Some (n - 48)%Z else None.

Fixpoint digits (acc : Z) (s : string) : option Z :=
  match s with
  | EmptyString => Some acc
  | String c r =>
      match digit c with
      | Some d => digits (10 * acc + d)%Z r
      | None => None
      end
  end.

(** A decimal integer literal: at least one digit, nothing else. *)
Definition integer (s : string) : option Z :=
  match s with
  | EmptyString => None
  | _ => digits 0%Z s
  end.

(** The value of [key: value] on the first line that carries [key]. *)
Fixpoint field (key : string) (lines : list string) : option string :=
  match lines with
  | [] => None
  | l :: rest =>
      match strip_prefix (key ++ ":") l with
      | Some v => Some (trim_left v)
      | None => field key rest
      end
  end.

Definition sidebar_position (f : ContentFile) : option Z :=
  match field "sidebar_position" (frontmatter f) with
  | Some v => integer v
  | None => None
  end.

(** *** Document paths

    The sidebar refers to the file [docs/Ariba DevOps/intro.md] as
    ['Ariba DevOps/intro']: a document is identified by its file name
    relative to [docs/], without the markdown extension (the hierarchical
    [category/slug] path of the data model). *)
Fixpoint drop_ext (s : string) : string :=
  match s with
  | EmptyString => EmptyString
  | String c r =>
      if String.eqb s ".md" || String.eqb s ".mdx" then EmptyString
      else String c (drop_ext r)
  end.

Definition doc_path (name : string) : string :=
  match strip_prefix "docs/" name with
  | Some rel => drop_ext rel
  | None => drop_ext name
  end.

Definition path (f : ContentFile) : string := doc_path (file f).

(** *** The documents of the repository *)

(** docs/Ariba DevOps/intro.md, lines 1-5. *)
Definition intro : ContentFile :=
  {| file := "docs/Ariba DevOps/intro.md";
     frontmatter := ["sidebar_position: 1"];
     heading := "DevOps Documentation" |}.

(** docs/Ariba DevOps/aks-terraform-deployment.md, lines 1-5. *)
Definition aks_terraform_deployment : ContentFile :=
  {| file := "docs/Ariba DevOps/aks-terraform-deployment.md";
     frontmatter := ["sidebar_position: 2"];
     heading := "Automated Deployment and Scaling of Azure Kubernetes Service (AKS) Using Terraform" |}.

(** docs/Ariba DevOps/azure-functions-powershell.md, lines 1-5. *)
Definition azure_functions_powershell : ContentFile :=
  {| file := "docs/Ariba DevOps/azure-functions-powershell.md";
     frontmatter := ["sidebar_position: 3"];
     heading := "PowerShell Script to Retrieve Specific Functions from Azure Functions App" |}.

(** Modelled from the spec: the file names of three documents are missing
    from the sources (the document of unnamed/part_000, the first document of
    unnamed/part_001, and the document that follows the introduction in the
    same source file). Each is given the name of the path that section 8 of
    the spec lists for it, matched by its heading and its position; the
    front-matter and the headings below are those of the sources. *)
Definition bluetooth_ble_troubleshooting_file : string :=
  "docs/Ariba DevOps/bluetooth-ble-troubleshooting.md".

Definition azure_devops_security_pipeline_file : string :=
  "docs/Ariba DevOps/azure-devops-security-pipeline.md".

Definition organizational_structure_file : string :=
  "docs/CN Org Structure/organizational-structure.md".

(** unnamed/part_000, lines 1-5. *)
Definition bluetooth_ble_troubleshooting : ContentFile :=
  {| file := bluetooth_ble_troubleshooting_file;
     frontmatter := ["sidebar_position: 4"];
     heading := "Troubleshooting and Resolving Bluetooth Connectivity Issues for Client Chorus BLE" |}.

(** unnamed/part_001, lines 1-5. *)
Definition azure_devops_security_pipeline : ContentFile :=
  {| file := azure_devops_security_pipeline_file;
     frontmatter := ["sidebar_position: 5"];
     heading := "End-to-End Automated Security Pipeline for PR Validation in Azure DevOps" |}.

(** The second document stored with the introduction (its own fences and
    heading, [sidebar_position: 1]). *)
Definition organizational_structure : ContentFile :=
  {| file := organizational_structure_file;
     frontmatter := ["sidebar_position: 1"];
     heading := "CloudNexus Organizational Structure" |}.

Definition ContentStore : list ContentFile :=
  [ intro; aks_terraform_deployment; azure_functions_powershell;
    bluetooth_ble_troubleshooting; azure_devops_security_pipeline;
    organizational_structure ].

(** The documents whose file names the sources give. *)
Definition NamedStore : list ContentFile :=
  [ intro; aks_terraform_deployment; azure_functions_powershell ].

(** Deleting a content file from the store. *)
Definition remove_file (name : string) (store : list ContentFile)
  : list ContentFile :=
  filter (fun f => file f <> name) store.

(** The document a path resolves to, if any. *)
Definition resolve (store : list ContentFile) (p : string)
  : option ContentFile :=
  List.find (fun f => String.eqb (path f) p) store.

End Content.

(** ** The build, as far as the Navigation Tree and the Content Store go *)

Module Build.
Import Sidebar Content.

Inductive BuildError : Type :=
| BrokenReference (p : string)
| DuplicatePath (p : string).

Fixpoint first_duplicate (l : list string) : option string :=
  match l with
  | [] => None
  | x :: r => if existsb (String.eqb x) r then Some x else first_duplicate r
  end.

Definition broken (store : list ContentFile) (p : string) : bool :=
  match resolve store p with
  | Some _ => false
  | None => true
  end.

(** Modelled from the spec: the build command belongs to the site generator
    and is not in the sources. Sections 6 and 7 of the spec give its
    contract: two documents with one path fail the build, a path of the
    Navigation Tree without a content file fails the build, and otherwise the
    build succeeds with the traversal as the document ordering. *)
Definition build (store : list ContentFile) (root : list SidebarItem)
  : BuildError + list string :=
  match first_duplicate (map path store) with
  | Some p => inl (DuplicatePath p)
  | None =>
      match List.find (broken store) (traversal root) with
      | Some p => inl (BrokenReference p)
      | None => inr (traversal root)
      end
  end.

(** *** Order within a category *)

(** The items of the top-level category labelled [label]. *)
Definition category_items (label : string) (root : list SidebarItem)
  : list SidebarItem :=
  match List.find (fun t => match label_of t with
                            | Some l => String.eqb l label
                            | None => false
                            end) root with
  | Some t => items_of t
  | None => []
  end.

(** The [sidebar_position] of the document a path resolves to. *)
Definition position_of (store : list ContentFile) (p : string) : option Z :=
  match resolve store p with
  | Some d => sidebar_position d
  | None => None
  end.

Definition in_category (label : string) (f : ContentFile) : bool :=
  match strip_prefix (String.append label "/") (path f) with
  | Some _ => true
  | None => false
  end.

(** Documents with a position come in ascending position, before those
    without one. *)
Definition le_position (a b : ContentFile) : bool :=
  match sidebar_position a, sidebar_position b with
  | Some x, Some y => (x <=? y)%Z
  | Some _, None => true
  | None, Some _ => false
  | None, None => true
  end.

Fixpoint insert_by_position (f : ContentFile) (l : list ContentFile)
  : list ContentFile :=
  match l with
  | [] => [f]
  | g :: r =>
      if le_position f g then f :: l else g :: insert_by_position f r
  end.

Definition sort_by_position (l : list ContentFile) : list ContentFile :=
  fold_right insert_by_position [] l.

(** The paths of the documents of a category in ascending
    [sidebar_position]. *)
Definition by_position (label : string) (store : list ContentFile)
  : list string :=
  map path (sort_by_position (List.filter (in_category label) store)).

End Build.

(** ** Landing page: the HomepageFeatures component *)

Module Landing.

(** A [className] is a string literal or a member of the CSS module imported
    as [styles] (whose generated names are not part of the component); an
    element without the attribute has [None]. *)
Inductive ClassName : Type :=
| Lit (s : string)
| Style (member : string).

#[local] Unset Elimination Schemes.

(** React elements as the component's JSX builds them. [FeatureEl] is the
    element [<Feature key={idx} {...props} />]; [SvgEl] and [HeadingEl] are
    elements of the imported [Svg] and [Heading] components. *)
Inductive ReactNode : Type :=
| Text (s : string)
| Fragment (children : list ReactNode)
| Host (tag : string) (className : option ClassName)
    (children : list ReactNode)
| SvgEl (Svg : string) (className : ClassName) (role : string)
| HeadingEl (as_ : string) (children : list ReactNode)
| FeatureEl (key : nat) (title : string) (Svg : string)
    (description : ReactNode).

#[local] Set Elimination Schemes.

Section Induction.
Variable P : ReactNode -> Prop.
Hypothesis P_text : forall s, P (Text s).
Hypothesis P_fragment : forall cs, Forall P cs -> P (Fragment cs).
Hypothesis P_host : forall tag c cs, Forall P cs -> P (Host tag c cs).
Hypothesis P_svg : forall svg c role, P (SvgEl svg c role).
Hypothesis P_heading : forall a cs, Forall P cs -> P (HeadingEl a cs).
Hypothesis P_feature : forall k t svg d, P d -> P (FeatureEl k t svg d).

Fixpoint ReactNode_tree_ind (n : ReactNode) : P n :=
  let all :=
    fix all (l : list ReactNode) : Forall P l :=
      match l with
      | [] => @List.Forall_nil _ P
      | x :: r => @List.Forall_cons _ P x r (ReactNode_tree_ind x) (all r)
      end in
  match n with
  | Text s => P_text s
  | Fragment cs => P_fragment cs (all cs)
  | Host tag c cs => P_host tag c cs (all cs)
  | SvgEl svg c role => P_svg svg c role
  | HeadingEl a cs => P_heading a cs (all cs)
  | FeatureEl k t svg d => P_feature k t svg d (ReactNode_tree_ind d)
  end.
End Induction.

(** [type FeatureItem = {title, Svg, description}]; [Svg] is kept as the
    module the component is required from. *)
Record FeatureItem : Type := mkFeatureItem {
  title : string;
  Svg : string;
  description : ReactNode
}.

(** [const FeatureList: FeatureItem[]]. The JSX text of a description is
    its lines trimmed and joined by one space, entities decoded. *)
Definition FeatureList : list FeatureItem :=
  [ {| title := "Comprehensive Documentation";
       Svg := "@site/static/img/undraw_docusaurus_mountain.svg";
       description := Fragment [Text
         "Find everything you need in one place. Our documentation is designed to help you get started quickly and find answers to your questions."] |};
    {| title := "Clear & Organized";
       Svg := "@site/static/img/undraw_docusaurus_tree.svg";
       description := Fragment [Text
         "Well-structured content that makes it easy to navigate and find what you're looking for. Focus on learning, not searching."] |};
    {| title := "Modern & Fast";
       Svg := "@site/static/img/undraw_docusaurus_react.svg";
       description := Fragment [Text
         "Built with modern web technologies for a fast, responsive experience that works seamlessly across all devices."] |} ].

(** [clsx]: the truthy arguments joined by a space. *)
Fixpoint clsx (args : list string) : string :=
  match args with
  | [] => ""
  | "" :: r => clsx r
  | a :: r =>
      match clsx r with
      | "" => a
      | s => String.append a (String.append " " s)
      end
  end.

(** [function Feature({title, Svg, description}: FeatureItem)]. *)
Definition Feature (props : FeatureItem) : ReactNode :=
  Host "div" (Some (Lit (clsx ["col col--4"])))
    [ Host "div" (Some (Lit "text--center"))
        [ SvgEl (Svg props) (Style "featureSvg") "img" ];
      Host "div" (Some (Lit "text--center padding-horiz--md"))
        [ HeadingEl "h3" [Text (title props)];
          Host "p" None [description props] ] ].

(** The body of [HomepageFeatures], with the list it maps over as a
    parameter; [imap] is [Array.prototype.map] with its index argument. *)
Definition HomepageFeatures_over (features : list FeatureItem) : ReactNode :=
  Host "section" (Some (Style "features"))
    [ Host "div" (Some (Lit "container"))
        [ Host "div" (Some (Lit "row"))
            (imap (fun idx props =>
                     FeatureEl idx (title props) (Svg props)
                       (description props))
                  features) ] ].

(** [export default function HomepageFeatures(): ReactNode]. *)
Definition HomepageFeatures : ReactNode := HomepageFeatures_over FeatureList.

(** The [Feature] elements of an element tree, in document order, each with
    its key and its props. Props are not children: a description is not
    searched. *)
Fixpoint feature_blocks (n : ReactNode) : list (nat * FeatureItem) :=
  match n with
  | FeatureEl k t svg d => [(k, mkFeatureItem t svg d)]
  | Fragment cs | Host _ _ cs | HeadingEl _ cs => flat_map feature_blocks cs
  | Text _ | SvgEl _ _ _ => []
  end.

(** Rendering: every [Feature] element is replaced by what the [Feature]
    component returns for its props. *)
Fixpoint render (n : ReactNode) : ReactNode :=
  match n with
  | FeatureEl _ t svg d => Feature (mkFeatureItem t svg (render d))
  | Fragment cs => Fragment (map render cs)
  | Host tag c cs => Host tag c (map render cs)
  | HeadingEl a cs => HeadingEl a (map render cs)
  | Text _ | SvgEl _ _ _ => n
  end.

(** The column blocks of a rendered tree with the text of their headings, in
    document order. *)
Fixpoint text_of (n : ReactNode) : string :=
  match n with
  | Text s => s
  | Fragment cs | Host _ _ cs | HeadingEl _ cs =>
      fold_right (fun c acc => String.append (text_of c) acc) "" cs
  | SvgEl _ _ _ => ""
  | FeatureEl _ _ _ _ => ""
  end.

Fixpoint headings (n : ReactNode) : list string :=
  match n with
  | HeadingEl _ cs => [fold_right (fun c acc => String.append (text_of c) acc) "" cs]
  | Fragment cs | Host _ _ cs => flat_map headings cs
  | Text _ | SvgEl _ _ _ | FeatureEl _ _ _ _ => []
  end.

Fixpoint columns (n : ReactNode) : list ReactNode :=
  match n with
  | Host tag (Some (Lit "col col--4")) cs => [n]
  | Host _ _ cs | Fragment cs | HeadingEl _ cs => flat_map columns cs
  | Text _ | SvgEl _ _ _ | FeatureEl _ _ _ _ => []
  end.

End Landing.

(** ** policies/security.rego: the OPA policy of the security pipeline *)

Module Policy.

#[local] Unset Elimination Schemes.

(** A JSON document, as [input] is one. Numbers are kept as written; the
    policy never looks into one. *)
Inductive json : Type :=
| JNull
| JBool (b : bool)
| JNum (literal : string)
| JStr (s : string)
| JArr (elems : list json)
| JObj (members : gmap string json).

#[local] Set Elimination Schemes.

(** [v.k] and [v["k"]]: defined on an object that has the key. *)
Definition field (k : string) (v : json) : option json :=
  match v with
  | JObj m => m !! k
  | _ => None
  end.

(** [v[_]]: the elements of an array, the values of an object. *)
Definition elements (v : json) : list json :=
  match v with
  | JArr l => l
  | JObj m => map snd (map_to_list m)
  | _ => []
  end.

(** [ref == "s"]: the reference is defined and is the string [s]. *)
Definition is_str (s : string) (v : option json) : bool :=
  match v with
  | Some (JStr s') => String.eqb s' s
  | _ => false
  end.

(** A reference standing alone as a statement holds when it is defined and
    is not [false]; [not ref] holds otherwise. *)
Definition holds (v : option json) : bool :=
  match v with
  | None => false
  | Some (JBool false) => false
  | Some _ => true
  end.

Definition vulnerabilities (input : json) : list json :=
  match field "vulnerabilities" input with
  | Some v => elements v
  | None => []
  end.

Definition content_type_options (input : json) : option json :=
  match field "headers" input with
  | Some h => field "X-Content-Type-Options" h
  | None => None
  end.

(** [input.vulnerabilities[_].severity == "HIGH"]. *)
Definition high_severity (input : json) : bool :=
  existsb (fun e => is_str "HIGH" (field "severity" e))
          (vulnerabilities input).

(** [input.type == "webapp"; not input.headers["X-Content-Type-Options"]]. *)
Definition missing_headers (input : json) : bool :=
  is_str "webapp" (field "type" input)
  && negb (holds (content_type_options input)).

(** [input.protocol == "http"]. *)
Definition plain_http (input : json) : bool :=
  is_str "http" (field "protocol" input).

Definition msg_high : string := "High severity vulnerability detected".
Definition msg_headers : string := "Missing security headers".
Definition msg_http : string := "HTTP connections not allowed".

(** [deny[msg]]: the set built by the three rules. *)
Definition deny (input : json) : gset string :=
  (if high_severity input then {[ msg_high ]} else ∅)
  ∪ (if missing_headers input then {[ msg_headers ]} else ∅)
  ∪ (if plain_http input then {[ msg_http ]} else ∅).

(** [input] with its [vulnerabilities] replaced. *)
Definition with_vulnerabilities (vs : list json) (input : json) : json :=
  match input with
  | JObj m => JObj (<[ "vulnerabilities" := JArr vs ]> m)
  | _ => input
  end.

End Policy.

(** ** Python dictionaries, as the two Python scripts use them *)

Module PyDict.

(** A Python [dict] with string keys: insertion-ordered, assignment to a key
    that is present replaces the value in place. *)
Fixpoint dict_set {V : Type} (k : string) (v : V) (d : list (string * V))
  : list (string * V) :=
  match d with
  | [] => [(k, v)]
  | (k', v') :: r =>
      if String.eqb k' k then (k', v) :: r else (k', v') :: dict_set k v r
  end.

Fixpoint dict_get {V : Type} (k : string) (d : list (string * V))
  : option V :=
  match d with
  | [] => None
  | (k', v') :: r => if String.eqb k' k then Some v' else dict_get k r
  end.

End PyDict.

(** ** The BLE diagnostic tool (class BLEDiagnostics of the Bluetooth guide) *)

Module Ble.
Import PyDict.

(** Text is held as its UTF-8 bytes: joining, comparing and testing texts
    for emptiness are then the same on the bytes, and a text occurs in
    another exactly when its bytes occur in the other's, since no UTF-8
    character starts inside another. *)

(** What the code reads of a discovered device, of a GATT characteristic and
    of a GATT service. A discovered device need not advertise a name: its
    [name] is then [None]. *)
Record BLEDevice : Type := mkDevice {
  name : option string;
  address : string
}.

Record Characteristic : Type := mkCharacteristic {
  char_uuid : string;
  char_properties : list string
}.

Record Service : Type := mkService {
  uuid : string;
  description : string;
  characteristics : list Characteristic
}.

(** The dictionaries [discover_services] builds:
    [{'uuid': ..., 'properties': ...}] and
    [{'description': ..., 'characteristics': chars}]. *)
Record CharInfo : Type := mkCharInfo {
  info_uuid : string;
  info_properties : list string
}.

Record ServiceInfo : Type := mkServiceInfo {
  info_description : string;
  info_characteristics : list CharInfo
}.

(** [self]: the two attributes [__init__] sets. *)
Record BLEDiagnostics : Type := mkDiagnostics {
  device_name : string;
  device_address : option string
}.

(** [__init__(self, device_name="Chorus BLE")]. *)
Definition init (device_name : option string) : BLEDiagnostics :=
  {| device_name := default "Chorus BLE" device_name;
     device_address := None |}.

Inductive Level : Type := INFO | WARNING | ERROR.

Definition LogRecord : Type := Level * string.

(** *** Methods as computations

    A method runs on [self] and the log written so far; it returns a value or
    raises an exception (kept as its message, which is all the code uses),
    and leaves [self] and the log as they are at that point. *)
Definition Py (A : Type) : Type :=
  BLEDiagnostics * list LogRecord ->
  (string + A) * (BLEDiagnostics * list LogRecord).

Definition ret {A : Type} (a : A) : Py A := fun st => (inr a, st).

Definition raise {A : Type} (e : string) : Py A := fun st => (inl e, st).

Definition bind {A B : Type} (m : Py A) (k : A -> Py B) : Py B :=
  fun st =>
    match m st with
    | (inl e, st') => (inl e, st')
    | (inr a, st') => k a st'
    end.

Notation "'let!' x := m 'in' k" := (bind m (fun x => k))
  (at level 10, x name, m at level 100, k at level 200, only parsing).
Notation "m >> k" := (bind m (fun _ => k))
  (at level 100, k at level 200, right associativity, only parsing).

(** [try: m  except Exception as e: handler e]. *)
Definition try_except {A : Type} (m : Py A) (handler : string -> Py A)
  : Py A :=
  fun st =>
    match m st with
    | (inl e, st') => handler e st'
    | (inr a, st') => (inr a, st')
    end.

(** [await] of an operation of the Bluetooth stack, given its outcome. *)
Definition await {A : Type} (outcome : string + A) : Py A :=
  match outcome with
  | inl e => raise e
  | inr a => ret a
  end.

Definition get_self : Py BLEDiagnostics := fun st => (inr st.1, st).

Definition set_device_address (a : string) : Py unit :=
  fun st =>
    (inr tt, ({| device_name := device_name st.1;
                 device_address := Some a |}, st.2)).

Definition logger (lvl : Level) (msg : string) : Py unit :=
  fun st => (inr tt, (st.1, st.2 ++ [(lvl, msg)])).

(** *** Strings *)

(** [str.lower] is Python's own, defined over the whole of Unicode and not
    character by character; the methods below take it as the parameter
    [lower] and nothing is assumed of it. [ascii_lower] is what it does on
    ASCII text, for the examples. *)
Definition lower_char (c : ascii) : ascii :=
  let n := nat_of_ascii c in
  if (65 <=? n)%nat && (n <=? 90)%nat then ascii_of_nat (n + 32) else c.

Fixpoint ascii_lower (s : string) : string :=
  match s with
  | EmptyString => EmptyString
  | String c r => String (lower_char c) (ascii_lower r)
  end.

(** The message of the [AttributeError] that [None.lower()] raises. *)
Definition attribute_error : string :=
  "'NoneType' object has no attribute 'lower'".

(** [needle in hay]. *)
Fixpoint contains (needle hay : string) : bool :=
  String.prefix needle hay
  || match hay with
     | EmptyString => false
     | String _ r => contains needle r
     end.

Definition str_bool (b : bool) : string := if b then "True" else "False".

Fixpoint times (n : nat) (s : string) : string :=
  match n with
  | O => EmptyString
  | S k => String.append s (times k s)
  end.

(** [not self.device_address]: [None] and the empty string are falsy. *)
Definition usable_address (a : option string) : option string :=
  match a with
  | Some EmptyString => None
  | _ => a
  end.

(** *** The outcome of one [BleakClient] session

    [async with BleakClient(address) as client] connects on entry and
    disconnects on exit; either may raise. *)
Record Session : Type := mkSession {
  connect_error : option string;
  is_connected : bool;
  get_services : string + list Service;
  disconnect_error : option string
}.

Definition async_with {A : Type} (s : Session) (body : Py A) : Py A :=
  match connect_error s with
  | Some e => raise e
  | None =>
      fun st =>
        match body st, disconnect_error s with
        | (r, st'), Some e => (inl e, st')
        | (r, st'), None => (r, st')
        end
  end.

(** *** scan_for_device *)

(** [self.device_name.lower() in device.name.lower()]; on a device without
    a name, [device.name.lower()] raises. *)
Fixpoint scan_loop (lower : string -> string) (devices : list BLEDevice)
  : Py (option BLEDevice) :=
  match devices with
  | [] => logger ERROR "Device not found" >> ret None
  | device :: rest =>
      let! self := get_self in
      match name device with
      | None => raise attribute_error
      | Some device_name' =>
          if contains (lower (device_name self)) (lower device_name') then
            logger INFO
              (String.append "Found device: "
                 (String.append device_name'
                    (String.append " ("
                       (String.append (address device) ")")))) >>
            set_device_address (address device) >>
            ret (Some device)
          else scan_loop lower rest
      end
  end.

(** [discovered] is the outcome of [BleakScanner.discover(timeout=timeout)]. *)
Definition scan_for_device (lower : string -> string)
    (discovered : string + list BLEDevice) : Py (option BLEDevice) :=
  let! self := get_self in
  logger INFO
    (String.append "Scanning for " (String.append (device_name self) "...")) >>
  let! devices := await discovered in
  scan_loop lower devices.

(** *** test_connection

    [client a] is the outcome of the session opened on the address [a]. *)
Definition test_connection (client : string -> Session) : Py bool :=
  let! self := get_self in
  match usable_address (device_address self) with
  | None => logger ERROR "No device address available" >> ret false
  | Some a =>
      try_except
        (async_with (client a)
           (logger INFO "Connection successful" >>
            logger INFO
              (String.append "Connected: "
                 (str_bool (is_connected (client a)))) >>
            ret true))
        (fun e =>
           logger ERROR (String.append "Connection failed: " e) >>
           ret false)
  end.

(** *** discover_services *)

Definition chars_of (service : Service) : list CharInfo :=
  map (fun c => {| info_uuid := char_uuid c;
                   info_properties := char_properties c |})
      (characteristics service).

Definition service_info (services : list Service)
  : list (string * ServiceInfo) :=
  fold_left
    (fun d service =>
       dict_set (uuid service)
         {| info_description := description service;
            info_characteristics := chars_of service |} d)
    services [].

Definition discover_services (client : string -> Session)
  : Py (option (list (string * ServiceInfo))) :=
  let! self := get_self in
  match usable_address (device_address self) with
  | None => ret None
  | Some a =>
      try_except
        (async_with (client a)
           (let! services := await (get_services (client a)) in
            logger INFO
              (String.append "Found "
                 (String.append (pretty (length services)) " services")) >>
            ret (Some (service_info services))))
        (fun e =>
           logger ERROR (String.append "Service discovery failed: " e) >>
           ret None)
  end.

(** *** run_full_diagnostic *)

Fixpoint log_services (items : list (string * ServiceInfo)) : Py unit :=
  match items with
  | [] => ret tt
  | (u, info) :: rest =>
      logger INFO (String.append "  Service: " u) >>
      logger INFO
        (String.append "    Characteristics: "
           (pretty (length (info_characteristics info)))) >>
      log_services rest
  end.

(** [now] is [datetime.now()] as printed; [scan], [first] and [second] are
    the outcomes of the discovery and of the two sessions the method opens,
    in that order. *)
Definition run_full_diagnostic (lower : string -> string) (now : string)
    (scan : string + list BLEDevice) (first second : string -> Session)
  : Py bool :=
  logger INFO (times 50 "=") >>
  logger INFO "BLE Diagnostic Tool - Client Chorus BLE" >>
  logger INFO (String.append "Started: " now) >>
  logger INFO (times 50 "=") >>
  let! device := scan_for_device lower scan in
  match device with
  | None => ret false
  | Some _ =>
      let! connected := test_connection first in
      if negb connected then ret false
      else
        let! services := discover_services second in
        match services with
        | Some (item :: items) =>
            logger INFO "Services discovered successfully" >>
            log_services (item :: items)
        | _ => ret tt
        end >>
        logger INFO (times 50 "=") >>
        logger INFO "Diagnostic complete" >>
        ret true
  end.

(** [main()]: the tool is built for "Chorus BLE" and run once. *)
Definition main (lower : string -> string) (now : string)
    (scan : string + list BLEDevice) (first second : string -> Session)
  : Py unit :=
  run_full_diagnostic lower now scan first second >> ret tt.

Definition start (self : BLEDiagnostics)
  : BLEDiagnostics * list LogRecord := (self, []).

(** *** Names for what the methods write *)

(** [name_matches lower self n]: the wanted name occurs in the name [n],
    both in lower case. *)
Definition name_matches (lower : string -> string) (self : BLEDiagnostics)
    (n : string) : bool :=
  contains (lower (device_name self)) (lower n).

(** The loop of [scan_for_device] passes a device that has a name which does
    not match, and ends at any other: at a device without a name, or at one
    whose name matches. *)
Definition ends_scan (lower : string -> string) (self : BLEDiagnostics)
    (d : BLEDevice) : bool :=
  match name d with
  | None => true
  | Some n => name_matches lower self n
  end.

Definition found_record (n : string) (d : BLEDevice) : LogRecord :=
  (INFO,
   String.append "Found device: "
     (String.append n
        (String.append " (" (String.append (address d) ")")))).

Definition scanning_record (self : BLEDiagnostics) : LogRecord :=
  (INFO,
   String.append "Scanning for " (String.append (device_name self) "...")).

Definition with_address (self : BLEDiagnostics) (a : string)
  : BLEDiagnostics :=
  {| device_name := device_name self; device_address := Some a |}.

Definition connected_records (s : Session) : list LogRecord :=
  [ (INFO, "Connection successful");
    (INFO, String.append "Connected: " (str_bool (is_connected s))) ].

Definition banner (now : string) : list LogRecord :=
  [ (INFO, times 50 "=");
    (INFO, "BLE Diagnostic Tool - Client Chorus BLE");
    (INFO, String.append "Started: " now);
    (INFO, times 50 "=") ].

Fixpoint service_records (items : list (string * ServiceInfo))
  : list LogRecord :=
  match items with
  | [] => []
  | (u, info) :: rest =>
      (INFO, String.append "  Service: " u)
      :: (INFO,
          String.append "    Characteristics: "
            (pretty (length (info_characteristics info))))
      :: service_records rest
  end.

(** The last service of a list that carries the uuid [u]. *)
Definition last_with_uuid (u : string) (services : list Service)
  : option Service :=
  List.find (fun s => String.eqb (uuid s) u) (rev services).

Definition info_of (service : Service) : ServiceInfo :=
  {| info_description := description service;
     info_characteristics := chars_of service |}.

End Ble.

(** ** The consolidated report of the security pipeline

    The loop of the Python script of the step 'Generate Consolidated
    Report' that fills [report["scans"]]. *)

Module Report.
Import PyDict Policy.

Definition scan_files : list string :=
  [ "gitleaks-report.json"; "checkov-report.json"; "npm-audit.json" ].

(** What the working directory holds under a name for which
    [os.path.exists] is true: a file that [open] reads, with its content,
    or something [open] raises on (a directory, a file the script may not
    read), with the message of that error. *)
Inductive Entry : Type :=
| File (content : string)
| Unreadable (error : string).

(** The loop. A name that does not exist is skipped; [load] is [json.load]
    on a file with the given content: a value, or the message of the error
    it raises (the content is not JSON, or cannot be decoded). *)
Fixpoint aggregate (load : string -> string + json)
    (fs : gmap string Entry) (files : list string)
    (acc : list (string * json)) : string + list (string * json) :=
  match files with
  | [] => inr acc
  | scan_file :: rest =>
      match fs !! scan_file with
      | None => aggregate load fs rest acc
      | Some (Unreadable e) => inl e
      | Some (File content) =>
          match load content with
          | inl e => inl e
          | inr v => aggregate load fs rest (dict_set scan_file v acc)
          end
      end
  end.

(** What [scans] holds for a scan file: the parsed content of the file. *)
Definition loaded (load : string -> string + json)
    (fs : gmap string Entry) (scan_file : string) : option (string * json) :=
  match fs !! scan_file with
  | Some (File content) =>
      match load content with
      | inr v => Some (scan_file, v)
      | inl _ => None
      end
  | _ => None
  end.

(** The error the loop stops on at a scan file, if any. *)
Definition failure (load : string -> string + json)
    (fs : gmap string Entry) (scan_file : string) : option string :=
  match fs !! scan_file with
  | Some (Unreadable e) => Some e
  | Some (File content) =>
      match load content with
      | inl e => Some e
      | inr _ => None
      end
  | None => None
  end.

End Report.

(** ** The step 'Validate No Secrets Found' of the security pipeline *)

Module SecretsGate.








End SecretsGate.
Import Sidebar Content Build Landing.

(** * Properties *)

(** ** General facts about sidebar trees *)

Section TraversalFacts.

Lemma preorder_references (t : SidebarItem) (p : string) :
  In p (preorder t) <-> references t p.
Proof.
  induction t as [id | label items IH] using SidebarItem_tree_ind; simpl.
  - split.
    + intros [-> | []]. constructor.
    + inversion 1; subst. now left.
  - rewrite in_flat_map. split.
    + intros (c & Hc & Hp).
      eapply ref_category; [exact Hc |].
      apply (proj1 (List.Forall_forall _ _) IH c Hc). exact Hp.
    + inversion 1 as [| l its c q Hc Hr]; subst.
      exists c. split; [exact Hc |].
      apply (proj1 (List.Forall_forall _ _) IH c Hc). exact Hr.
Qed.

Lemma traversal_referenced (root : list SidebarItem) (p : string) :
  In p (traversal root) <-> referenced root p.
Proof.
  unfold traversal, referenced. rewrite in_flat_map.
  split; intros (t & Ht & Hp); exists t; split; auto;
    now apply preorder_references.
Qed.

Lemma count_occ_flat_map {A : Type} (f : A -> list string) (g : A -> nat)
    (p : string) (l : list A) :
  Forall (fun x => count_occ string_dec (f x) p = g x) l ->
  count_occ string_dec (flat_map f l) p
  = fold_right (fun c acc => g c + acc) 0 l.
Proof.
  induction 1 as [| x r Hx _ IH]; simpl.
  - reflexivity.
  - rewrite count_occ_app, Hx, IH. reflexivity.
Qed.

Lemma count_occ_preorder (p : string) (t : SidebarItem) :
  count_occ string_dec (preorder t) p = occurrences p t.
Proof.
  induction t as [id | label items IH] using SidebarItem_tree_ind; simpl.
  - destruct (string_dec id p) as [-> | Hne].
    + now rewrite String.eqb_refl.
    + apply String.eqb_neq in Hne. now rewrite Hne.
  - now apply count_occ_flat_map.
Qed.

Lemma count_occ_traversal (p : string) (root : list SidebarItem) :
  count_occ string_dec (traversal root) p = occurrences_in p root.
Proof.
  unfold traversal, occurrences_in. apply count_occ_flat_map.
  apply List.Forall_forall. intros t _. apply count_occ_preorder.
Qed.

End TraversalFacts.

(** ** Duplicate detection *)

Lemma existsb_eqb_In (x : string) (l : list string) :
  existsb (String.eqb x) l = true <-> In x l.
Proof.
  rewrite existsb_exists. split.
  - intros (y & Hy & Heq). apply String.eqb_eq in Heq. now subst.
  - intros H. exists x. split; [exact H | apply String.eqb_refl].
Qed.

Lemma first_duplicate_None (l : list string) :
  first_duplicate l = None <-> NoDup l.
Proof.
  induction l as [| x r IH]; simpl.
  - split; [constructor | reflexivity].
  - destruct (existsb (String.eqb x) r) eqn:Hex.
    + split; [discriminate |]. intros Hnd. exfalso.
      apply existsb_eqb_In, list_elem_of_In in Hex.
      apply NoDup_cons in Hnd as [Hnotin _]. contradiction.
    + rewrite IH, NoDup_cons. split.
      * intros Hnd. split; [| exact Hnd].
        intros Hin. apply list_elem_of_In, existsb_eqb_In in Hin.
        congruence.
      * now intros [_ Hnd].
Qed.

Lemma first_duplicate_Some (l : list string) (x : string) :
  first_duplicate l = Some x -> In x l /\ 1 < count_occ string_dec l x.
Proof.
  induction l as [| y r IH]; simpl.
  - discriminate.
  - destruct (existsb (String.eqb y) r) eqn:Hex.
    + intros [= ->]. split; [now left |].
      apply existsb_eqb_In in Hex.
      destruct (string_dec x x) as [_ | Hne]; [| congruence].
      apply (count_occ_In string_dec) in Hex. lia.
    + intros H. destruct (IH H) as [Hin Hc]. split; [now right |].
      destruct (string_dec y x); lia.
Qed.

(** ** The declared Navigation Tree *)

Lemma navigationTree_eq : navigationTree = tutorialSidebar.
Proof. unfold navigationTree, sidebars. now rewrite lookup_singleton_eq. Qed.

(** C1. The pre-order traversal of the Navigation Tree of sidebars.ts yields
    exactly six document paths, in the order intro,
    aks-terraform-deployment, azure-functions-powershell,
    bluetooth-ble-troubleshooting, azure-devops-security-pipeline,
    organizational-structure; the first five stand under the category
    'Ariba DevOps', the last under 'CN Org Structure'. *)
Theorem traversal_order :
  traversal navigationTree
  = [ "Ariba DevOps/intro";
      "Ariba DevOps/aks-terraform-deployment";
      "Ariba DevOps/azure-functions-powershell";
      "Ariba DevOps/bluetooth-ble-troubleshooting";
      "Ariba DevOps/azure-devops-security-pipeline";
      "CN Org Structure/organizational-structure" ]
  /\ map slug (traversal navigationTree)
     = [ "intro"; "aks-terraform-deployment"; "azure-functions-powershell";
         "bluetooth-ble-troubleshooting"; "azure-devops-security-pipeline";
         "organizational-structure" ]
  /\ map fst (enclosed_in navigationTree)
     = [ "Ariba DevOps"; "Ariba DevOps"; "Ariba DevOps"; "Ariba DevOps";
         "Ariba DevOps"; "CN Org Structure" ]
  /\ map snd (enclosed_in navigationTree) = traversal navigationTree
  /\ traverse_config sidebars = traversal navigationTree.
Proof.
  rewrite navigationTree_eq. do 4 (split; [reflexivity |]).
  unfold traverse_config, sidebars. rewrite map_to_list_singleton.
  reflexivity.
Qed.

(** C6. The root of the Navigation Tree is a single top-level ordered
    sequence (the configuration has the one key [tutorialSidebar]) that
    contains exactly two categories, labelled 'Ariba DevOps' (5 items) and
    'CN Org Structure' (1 item), in that order. *)
Theorem root_two_categories :
  map_to_list sidebars = [("tutorialSidebar", navigationTree)]
  /\ length navigationTree = 2
  /\ map (fun t => (is_category t, label_of t, length (items_of t)))
         navigationTree
     = [ (true, Some "Ariba DevOps", 5); (true, Some "CN Org Structure", 1) ].
Proof.
  rewrite navigationTree_eq. split; [| split; reflexivity].
  unfold sidebars. apply map_to_list_singleton.
Qed.

Lemma depth_nest (n : nat) (p : string) : depth (nest n p) = S n.
Proof.
  induction n as [| n IH]; simpl.
  - reflexivity.
  - rewrite IH. now rewrite Nat.max_0_r.
Qed.

(** C10. The Navigation Tree has nesting depth exactly two: both top-level
    entries are categories and each contains only document references, no
    nested category; the item type itself allows categories nested to any
    depth. *)
Theorem nesting_depth_two :
  depth_of navigationTree = 2
  /\ Forall (fun t => is_category t = true
                      /\ depth t = 2
                      /\ forallb is_doc (items_of t) = true) navigationTree
  /\ (forall n : nat, exists t : SidebarItem, depth t = S n).
Proof.
  rewrite navigationTree_eq. split; [reflexivity |]. split.
  - repeat constructor.
  - intros n. exists (nest n "leaf"). apply depth_nest.
Qed.

(** C3. The pre-order traversal of the Navigation Tree visits every document
    path referenced in the configuration exactly once: every referenced path
    is in the traversal, it is there once, it is referenced at one place of
    the tree, no path stands at two positions of the traversal, and the
    traversal visits nothing that is not referenced. *)
Theorem each_reference_visited_once (p : string) :
  referenced navigationTree p ->
  In p (traversal navigationTree)
  /\ count_occ string_dec (traversal navigationTree) p = 1
  /\ occurrences_in p navigationTree = 1
  /\ NoDup (traversal navigationTree)
  /\ (forall (i j : nat) (q : string),
        traversal navigationTree !! i = Some q ->
        traversal navigationTree !! j = Some q -> i = j)
  /\ (forall q : string,
        In q (traversal navigationTree) -> referenced navigationTree q).
Proof.
  intros Href.
  assert (Hin : In p (traversal navigationTree))
    by now apply traversal_referenced.
  assert (Hnd : NoDup (traversal navigationTree)).
  { rewrite navigationTree_eq. apply first_duplicate_None. reflexivity. }
  assert (Hone : count_occ string_dec (traversal navigationTree) p = 1)
    by now apply (proj1 (List.NoDup_count_occ' string_dec _)
                    (proj1 (NoDup_ListNoDup _) Hnd)).
  split; [exact Hin |]. split; [exact Hone |].
  split; [now rewrite <- count_occ_traversal |].
  split; [exact Hnd |]. split.
  - intros i j q Hi Hj. eapply NoDup_lookup; eauto.
  - intros q Hq. now apply traversal_referenced.
Qed.

Lemma each_reference_visited_once_witness :
  referenced navigationTree "Ariba DevOps/bluetooth-ble-troubleshooting"
  /\ count_occ string_dec (traversal navigationTree)
       "Ariba DevOps/bluetooth-ble-troubleshooting" = 1.
Proof.
  assert (H : referenced navigationTree
                "Ariba DevOps/bluetooth-ble-troubleshooting").
  { apply traversal_referenced. rewrite navigationTree_eq. simpl. tauto. }
  split; [exact H |].
  exact (proj1 (proj2 (each_reference_visited_once _ H))).
Defined.

(** ** Shape of the leaf paths *)

Lemma split_slash_spec (s a b : string) :
  split_slash s = Some (a, b) ->
  s = String.append a (String "/" b) /\ has_slash a = false.
Proof.
  revert a b. induction s as [| c r IH]; intros a b; simpl.
  - discriminate.
  - destruct (Ascii.eqb c "/") eqn:Hc.
    + intros [= <- <-]. apply Ascii.eqb_eq in Hc. subst c. now split.
    + destruct (split_slash r) as [[a' b'] |]; [| discriminate].
      intros [= <- <-]. destruct (IH a' b' eq_refl) as [-> Hs].
      split; [reflexivity |]. simpl. now rewrite Hc.
Qed.

Lemma two_segments_spec (label p : string) :
  two_segments label p = true ->
  exists slug : string,
    p = String.append label (String "/" slug)
    /\ slug <> "" /\ has_slash slug = false /\ has_slash label = false.
Proof.
  unfold two_segments.
  destruct (split_slash p) as [[a b] |] eqn:Hsplit; [| discriminate].
  intros H. apply andb_prop in H as [H Hslash].
  apply andb_prop in H as [Hlab Hne].
  apply String.eqb_eq in Hlab. subst a.
  apply split_slash_spec in Hsplit as [-> Hl].
  exists b. repeat split; auto.
  - intros ->. discriminate.
  - now destruct (has_slash b).
Qed.

Lemma enclosed_spec (t : SidebarItem) (l p : string) :
  In (l, p) (enclosed t) <-> leaf_under t l p.
Proof.
  induction t as [id | label items IH] using SidebarItem_tree_ind; simpl.
  - split; [intros [] | inversion 1].
  - rewrite in_flat_map. split.
    + intros (c & Hc & Hin). destruct c as [id | l' its].
      * destruct Hin as [[= <- <-] | []]. now apply leaf_here.
      * eapply leaf_below; [exact Hc |].
        now apply (proj1 (List.Forall_forall _ _) IH _ Hc).
    + inversion 1 as [lab its q Hq | lab its c l' q Hc Hl]; subst.
      * exists (Doc p). split; [exact Hq | now left].
      * exists c. split; [exact Hc |]. destruct c as [id | l' its'].
        -- inversion Hl.
        -- now apply (proj1 (List.Forall_forall _ _) IH _ Hc).
Qed.

Lemma enclosed_in_spec (root : list SidebarItem) (l p : string) :
  In (l, p) (enclosed_in root) <-> leaf_under_root root l p.
Proof.
  unfold enclosed_in, leaf_under_root. rewrite in_flat_map.
  split; intros (t & Ht & H); exists t; split; auto; now apply enclosed_spec.
Qed.

(** C9. Every leaf path of the Navigation Tree has the two-segment form
    label/slug, where label is the label of the category that immediately
    encloses the leaf and slug is not empty and has no further '/'; and every
    leaf of the tree has such an enclosing category. *)
Theorem leaf_path_has_category_prefix (label p : string) :
  leaf_under_root navigationTree label p ->
  (exists slug : string,
     p = String.append label (String "/" slug)
     /\ slug <> "" /\ has_slash slug = false /\ has_slash label = false)
  /\ two_segments label p = true
  /\ map snd (enclosed_in navigationTree) = traversal navigationTree.
Proof.
  intros H. apply enclosed_in_spec in H.
  assert (Hall : forallb (fun lp => two_segments lp.1 lp.2)
                   (enclosed_in navigationTree) = true)
    by (rewrite navigationTree_eq; reflexivity).
  assert (Htwo : two_segments label p = true)
    by exact (proj1 (forallb_forall _ _) Hall (label, p) H).
  split; [now apply two_segments_spec |]. split; [exact Htwo |].
  rewrite navigationTree_eq. reflexivity.
Qed.

Lemma leaf_path_has_category_prefix_witness :
  leaf_under_root navigationTree "CN Org Structure"
    "CN Org Structure/organizational-structure"
  /\ two_segments "CN Org Structure"
       "CN Org Structure/organizational-structure" = true.
Proof.
  assert (H : leaf_under_root navigationTree "CN Org Structure"
                "CN Org Structure/organizational-structure").
  { apply enclosed_in_spec. rewrite navigationTree_eq. simpl. tauto. }
  split; [exact H |].
  exact (proj1 (proj2 (leaf_path_has_category_prefix _ _ H))).
Defined.

(** ** The landing page *)

Lemma feature_blocks_imap (g : nat -> nat) (features : list FeatureItem) :
  flat_map feature_blocks
    (imap (fun idx props =>
             FeatureEl (g idx) (title props) (Svg props) (description props))
          features)
  = imap (fun idx props => (g idx, props)) features.
Proof.
  revert g. induction features as [| [t svg d] r IH]; intros g; simpl.
  - reflexivity.
  - f_equal. exact (IH (g ∘ S)).
Qed.

Lemma feature_blocks_over (features : list FeatureItem) :
  feature_blocks (HomepageFeatures_over features)
  = imap (fun idx props => (idx, props)) features.
Proof.
  unfold HomepageFeatures_over. simpl. rewrite !app_nil_r.
  exact (feature_blocks_imap (fun i => i) features).
Qed.

Lemma imap_pair_snd {A : Type} (g : nat -> nat) (l : list A) :
  map snd (imap (fun i x => (g i, x)) l) = l.
Proof.
  revert g. induction l as [| x r IH]; intros g; simpl.
  - reflexivity.
  - f_equal. exact (IH (g ∘ S)).
Qed.

Lemma imap_pair_fst {A : Type} (k : nat) (l : list A) :
  map fst (imap (fun i x => (k + i, x)) l) = seq k (length l).
Proof.
  revert k. induction l as [| x r IH]; intros k; simpl.
  - reflexivity.
  - rewrite Nat.add_0_r. f_equal. rewrite <- (IH (S k)).
    f_equal. apply imap_ext. intros i y _. simpl. f_equal. lia.
Qed.

(** C5. HomepageFeatures renders exactly one feature block per entry of
    FeatureList, in the order of the list: the Feature elements of its output
    are the entries of the list, keyed 0, 1, 2, and the rendered page has one
    column per entry whose heading is the entry's title. The output is a
    function of the list alone: the same holds for the component body over
    any list. *)
Theorem one_block_per_feature :
  feature_blocks HomepageFeatures
  = imap (fun idx props => (idx, props)) FeatureList
  /\ length (feature_blocks HomepageFeatures) = length FeatureList
  /\ map snd (feature_blocks HomepageFeatures) = FeatureList
  /\ map fst (feature_blocks HomepageFeatures) = [0; 1; 2]
  /\ columns (render HomepageFeatures) = map Feature FeatureList
  /\ flat_map headings (columns (render HomepageFeatures))
     = map title FeatureList
  /\ (forall features : list FeatureItem,
        length (feature_blocks (HomepageFeatures_over features))
        = length features
        /\ map snd (feature_blocks (HomepageFeatures_over features))
           = features
        /\ map fst (feature_blocks (HomepageFeatures_over features))
           = seq 0 (length features)).
Proof.
  unfold HomepageFeatures.
  split; [apply feature_blocks_over |].
  do 5 (split; [reflexivity |]).
  intros features. rewrite feature_blocks_over. split; [| split].
  - apply length_imap.
  - exact (imap_pair_snd (fun i => i) features).
  - exact (imap_pair_fst 0 features).
Qed.

(** ** References and the Content Store *)

Lemma resolve_Some (store : list ContentFile) (p : string) (d : ContentFile) :
  resolve store p = Some d -> In d store /\ path d = p.
Proof.
  unfold resolve. intros H. apply find_some in H as [Hin Heq].
  split; [exact Hin | now apply String.eqb_eq].
Qed.

Lemma resolve_None (store : list ContentFile) (p : string) :
  resolve store p = None -> forall d, In d store -> path d <> p.
Proof.
  unfold resolve. intros H d Hd Heq.
  apply (find_none _ _ H) in Hd. apply String.eqb_neq in Hd. contradiction.
Qed.

Lemma sublist_map {A B : Type} (g : A -> B) (l k : list A) :
  sublist l k -> sublist (map g l) (map g k).
Proof. induction 1; simpl; constructor; auto. Qed.

Lemma NoDup_map_lookup {A B : Type} (g : A -> B) (l : list A)
    (i j : nat) (a b : A) :
  NoDup (map g l) ->
  l !! i = Some a -> l !! j = Some b -> g a = g b -> i = j.
Proof.
  revert i j. induction l as [| x r IH]; intros i j Hnd Hi Hj Heq.
  - discriminate.
  - simpl in Hnd. apply NoDup_cons in Hnd as [Hnotin Hnd].
    assert (Hmem : forall k c, r !! k = Some c -> g c ∈ map g r).
    { intros k c Hk. apply list_elem_of_In, in_map, list_elem_of_In.
      eapply list_elem_of_lookup_2; eauto. }
    destruct i as [| i], j as [| j]; simpl in Hi, Hj.
    + reflexivity.
    + injection Hi as ->. exfalso. apply Hnotin. rewrite Heq. eauto.
    + injection Hj as ->. exfalso. apply Hnotin. rewrite <- Heq. eauto.
    + f_equal. eauto.
Qed.

Lemma NoDup_map_In {A B : Type} (g : A -> B) (l : list A) (a b : A) :
  NoDup (map g l) -> In a l -> In b l -> g a = g b -> a = b.
Proof.
  intros Hnd Ha Hb Heq.
  apply list_elem_of_In, list_elem_of_lookup in Ha as [i Hi].
  apply list_elem_of_In, list_elem_of_lookup in Hb as [j Hj].
  assert (i = j) by (eapply NoDup_map_lookup; eauto). subst j. congruence.
Qed.

Lemma remove_file_In (name : string) (store : list ContentFile)
    (d : ContentFile) :
  In d (remove_file name store) <-> file d <> name /\ In d store.
Proof.
  unfold remove_file.
  rewrite <- !list_elem_of_In, list_elem_of_filter. reflexivity.
Qed.

(** Whatever the store and the tree: when paths are unique, deleting the
    file of a referenced document turns the build into a broken-reference
    failure. *)
Lemma removal_breaks_build (store : list ContentFile)
    (root : list SidebarItem) (d : ContentFile) :
  NoDup (map path store) -> In d store -> In (path d) (traversal root) ->
  exists p, build (remove_file (file d) store) root = inl (BrokenReference p)
            /\ broken (remove_file (file d) store) p = true.
Proof.
  intros Hnd Hd Href. unfold build.
  assert (Hfirst : first_duplicate (map path (remove_file (file d) store))
                   = None).
  { apply first_duplicate_None. eapply sublist_NoDup; [exact Hnd |].
    apply sublist_map. unfold remove_file. apply sublist_filter. }
  rewrite Hfirst.
  assert (Hbroken : broken (remove_file (file d) store) (path d) = true).
  { unfold broken.
    destruct (resolve (remove_file (file d) store) (path d)) as [c |] eqn:E;
      [| reflexivity].
    exfalso. apply resolve_Some in E as [Hin Hp].
    apply remove_file_In in Hin as [Hne Hin].
    assert (c = d) by (eapply NoDup_map_In; eauto). subst c. now apply Hne. }
  destruct (List.find (broken (remove_file (file d) store)) (traversal root))
    as [q |] eqn:F.
  - exists q. split; [reflexivity |]. now apply find_some in F.
  - exfalso. apply (find_none _ _ F) in Href. congruence.
Qed.

(** *** No cycles *)

Lemma size_In (c : SidebarItem) (items : list SidebarItem) :
  In c items -> size c <= fold_right (fun x acc => size x + acc) 0 items.
Proof.
  induction items as [| x r IH]; simpl.
  - intros [].
  - intros [-> | H]; [lia |]. specialize (IH H). lia.
Qed.

Lemma child_size (c t : SidebarItem) : child c t -> size c < size t.
Proof.
  intros [label items c' Hin]. simpl. apply size_In in Hin. lia.
Qed.

Lemma descendant_size (c t : SidebarItem) :
  descendant c t -> size c < size t.
Proof.
  induction 1 as [c t H | c m t _ IH H].
  - now apply child_size.
  - apply child_size in H. lia.
Qed.

Lemma no_cycle (t : SidebarItem) : ~ descendant t t.
Proof. intros H. apply descendant_size in H. lia. Qed.

(** C2. Every reference of the Navigation Tree resolves to a document of
    the Content Store, the tree is finite and no item lies below itself;
    so for every leaf path of sidebars.ts the store has a document with that
    path, and once the file of that document is deleted the build stops with
    a broken reference to it, where it succeeded before. *)
Theorem references_resolve (p : string) :
  referenced navigationTree p ->
  (exists d : ContentFile,
      In d ContentStore /\ path d = p
      /\ resolve ContentStore p = Some d
      /\ build (remove_file (file d) ContentStore) navigationTree
         = inl (BrokenReference p))
  /\ build ContentStore navigationTree = inr (traversal navigationTree)
  /\ (forall t : SidebarItem, ~ descendant t t)
  /\ length (flat_map nodes navigationTree) = 8.
Proof.
  intros Href. apply traversal_referenced in Href.
  split; [| split; [| split]].
  - rewrite navigationTree_eq in Href |- *. simpl in Href.
    destruct Href as [<- | [<- | [<- | [<- | [<- | [<- | []]]]]]].
    + exists intro. repeat split; (reflexivity || (simpl; tauto)).
    + exists aks_terraform_deployment.
      repeat split; (reflexivity || (simpl; tauto)).
    + exists azure_functions_powershell.
      repeat split; (reflexivity || (simpl; tauto)).
    + exists bluetooth_ble_troubleshooting.
      repeat split; (reflexivity || (simpl; tauto)).
    + exists azure_devops_security_pipeline.
      repeat split; (reflexivity || (simpl; tauto)).
    + exists organizational_structure.
      repeat split; (reflexivity || (simpl; tauto)).
  - rewrite navigationTree_eq. reflexivity.
  - exact no_cycle.
  - rewrite navigationTree_eq. reflexivity.
Qed.

Lemma references_resolve_witness :
  referenced navigationTree "Ariba DevOps/aks-terraform-deployment"
  /\ exists d : ContentFile,
       In d ContentStore
       /\ path d = "Ariba DevOps/aks-terraform-deployment"
       /\ resolve ContentStore "Ariba DevOps/aks-terraform-deployment"
          = Some d
       /\ build (remove_file (file d) ContentStore) navigationTree
          = inl (BrokenReference "Ariba DevOps/aks-terraform-deployment").
Proof.
  assert (H : referenced navigationTree
                "Ariba DevOps/aks-terraform-deployment").
  { apply traversal_referenced. rewrite navigationTree_eq. simpl. tauto. }
  split; [exact H |].
  exact (proj1 (references_resolve _ H)).
Defined.

(** ** Documents *)

Lemma ContentStore_paths_NoDup : NoDup (map path ContentStore).
Proof. apply first_duplicate_None. reflexivity. Qed.

(** C4. Paths are unique across the Content Store: two documents of the
    store with the same path are the same entry of the store; the build's
    duplicate check finds nothing; and each document carries its own
    front-matter, with a position, and its own body, opened by a heading no
    other document has. *)
Theorem document_paths_unique (i j : nat) (d1 d2 : ContentFile) :
  ContentStore !! i = Some d1 -> ContentStore !! j = Some d2 ->
  path d1 = path d2 ->
  (i = j /\ d1 = d2)
  /\ NoDup (map path ContentStore)
  /\ first_duplicate (map path ContentStore) = None
  /\ NoDup (map path NamedStore)
  /\ Forall (fun d => frontmatter d <> [] /\ is_Some (sidebar_position d)
                      /\ heading d <> "") ContentStore
  /\ NoDup (map heading ContentStore).
Proof.
  intros Hi Hj Heq.
  assert (i = j)
    by (eapply NoDup_map_lookup; eauto using ContentStore_paths_NoDup).
  subst j. split; [split; [reflexivity | congruence] |].
  split; [exact ContentStore_paths_NoDup |].
  split; [reflexivity |].
  split; [apply first_duplicate_None; reflexivity |].
  split; [| apply first_duplicate_None; reflexivity].
  repeat constructor; (discriminate || (eexists; reflexivity)).
Qed.

Lemma document_paths_unique_witness :
  ContentStore !! 3 = Some bluetooth_ble_troubleshooting
  /\ NoDup (map path ContentStore).
Proof.
  assert (H : ContentStore !! 3 = Some bluetooth_ble_troubleshooting)
    by reflexivity.
  split; [exact H |].
  exact (proj1 (proj2 (document_paths_unique 3 3 _ _ H H eq_refl))).
Defined.

(** *** Ordering by position *)

Lemma le_position_total (a b : ContentFile) :
  le_position a b = false -> le_position b a = true.
Proof.
  unfold le_position.
  destruct (sidebar_position a), (sidebar_position b); try easy.
  intros H. apply Z.leb_gt in H. apply Z.leb_le. lia.
Qed.

Lemma insert_by_position_perm (f : ContentFile) (l : list ContentFile) :
  Permutation (f :: l) (insert_by_position f l).
Proof.
  induction l as [| g r IH]; simpl.
  - reflexivity.
  - destruct (le_position f g); [reflexivity |].
    rewrite perm_swap. now constructor.
Qed.

Lemma sort_by_position_perm (l : list ContentFile) :
  Permutation l (sort_by_position l).
Proof.
  induction l as [| f r IH]; simpl.
  - reflexivity.
  - rewrite <- insert_by_position_perm. now constructor.
Qed.

Lemma insert_by_position_sorted (f : ContentFile) (l : list ContentFile) :
  Sorted (fun a b => le_position a b = true) l ->
  Sorted (fun a b => le_position a b = true) (insert_by_position f l).
Proof.
  induction 1 as [| g r Hs IH Hhd]; simpl.
  - repeat constructor.
  - destruct (le_position f g) eqn:Hle.
    + repeat constructor; assumption.
    + constructor; [exact IH |].
      apply le_position_total in Hle.
      destruct Hhd as [| h r' Hgh]; simpl.
      * now constructor.
      * destruct (le_position f h); now constructor.
Qed.

(** Sorting by position gives the same documents in ascending position. *)
Lemma sort_by_position_sorted (l : list ContentFile) :
  Sorted (fun a b => le_position a b = true) (sort_by_position l).
Proof.
  induction l as [| f r IH]; simpl.
  - constructor.
  - now apply insert_by_position_sorted.
Qed.

(** C8. Every document of the Content Store has a front-matter block with an
    integer [sidebar_position]; within the category 'Ariba DevOps' the order
    written in the sidebar is the order of ascending position: intro 1,
    aks-terraform-deployment 2, azure-functions-powershell 3,
    bluetooth-ble-troubleshooting 4, azure-devops-security-pipeline 5. *)
Theorem sidebar_order_follows_position :
  Forall (fun d => frontmatter d <> []
                   /\ exists n : Z, sidebar_position d = Some n)
         ContentStore
  /\ map (fun p => (slug p, position_of ContentStore p))
         (traversal (category_items "Ariba DevOps" navigationTree))
     = [ ("intro", Some 1%Z);
         ("aks-terraform-deployment", Some 2%Z);
         ("azure-functions-powershell", Some 3%Z);
         ("bluetooth-ble-troubleshooting", Some 4%Z);
         ("azure-devops-security-pipeline", Some 5%Z) ]
  /\ by_position "Ariba DevOps" ContentStore
     = traversal (category_items "Ariba DevOps" navigationTree)
  /\ by_position "Ariba DevOps" (rev ContentStore)
     = traversal (category_items "Ariba DevOps" navigationTree).
Proof.
  rewrite navigationTree_eq. split; [| repeat split; reflexivity].
  repeat constructor; (discriminate || (eexists; reflexivity)).
Qed.

(** * Further properties of the repository's code *)

(** ** The OPA policy *)

Section PolicyFacts.
Import Policy.

Lemma high_severity_spec (input : json) :
  high_severity input = true
  <-> exists e, In e (vulnerabilities input)
                /\ field "severity" e = Some (JStr "HIGH").
Proof.
  unfold high_severity. rewrite existsb_exists.
  split; intros (e & He & Hs); exists e; split; auto.
  - unfold is_str in Hs.
    destruct (field "severity" e) as [[| | | s | |] |]; try discriminate.
    apply String.eqb_eq in Hs. now subst.
  - now rewrite Hs.
Qed.

Lemma is_str_spec (s : string) (v : option json) :
  is_str s v = true <-> v = Some (JStr s).
Proof.
  unfold is_str. destruct v as [[| | | s' | |] |]; try (split; easy).
  rewrite String.eqb_eq. split; [now intros -> | now intros [= ->]].
Qed.

Lemma deny_elem (input : json) (msg : string) :
  msg ∈ deny input
  <-> (msg = msg_high /\ high_severity input = true)
      \/ (msg = msg_headers /\ missing_headers input = true)
      \/ (msg = msg_http /\ plain_http input = true).
Proof.
  unfold deny. rewrite !elem_of_union.
  destruct (high_severity input), (missing_headers input),
    (plain_http input);
    rewrite ?elem_of_singleton, ?elem_of_empty; intuition congruence.
Qed.

Lemma deny_empty (input : json) :
  deny input = ∅
  <-> high_severity input = false /\ missing_headers input = false
      /\ plain_http input = false.
Proof.
  rewrite elem_of_equiv_empty_L. split.
  - intros Hnone.
    destruct (high_severity input) eqn:Eh;
      [exfalso; apply (Hnone msg_high), deny_elem; auto |].
    destruct (missing_headers input) eqn:Em;
      [exfalso; apply (Hnone msg_headers), deny_elem; auto |].
    destruct (plain_http input) eqn:Ep;
      [exfalso; apply (Hnone msg_http), deny_elem; auto |].
    auto.
  - intros (Hh & Hm & Hp) msg Hin. apply deny_elem in Hin.
    rewrite Hh, Hm, Hp in Hin. intuition discriminate.
Qed.

(** X1. The policy lets an input through exactly when no vulnerability has
    the severity "HIGH" (as written, upper case), a webapp has an
    X-Content-Type-Options header that is not [false], and the protocol is
    not "http". *)
Theorem policy_allows_iff (input : json) :
  deny input = ∅
  <-> (forall e, In e (vulnerabilities input) ->
                 field "severity" e <> Some (JStr "HIGH"))
      /\ (field "type" input = Some (JStr "webapp") ->
          holds (content_type_options input) = true)
      /\ field "protocol" input <> Some (JStr "http").
Proof.
  rewrite deny_empty. split.
  - intros (Hh & Hm & Hp). split; [| split].
    + intros e He Hs.
      assert (high_severity input = true)
        by (apply high_severity_spec; eauto).
      congruence.
    + intros Ht. unfold missing_headers in Hm.
      apply is_str_spec in Ht. rewrite Ht in Hm. simpl in Hm.
      now destruct (holds (content_type_options input)).
    + intros Hq. apply is_str_spec in Hq. unfold plain_http in Hp.
      congruence.
  - intros (Hh & Hm & Hp). split; [| split].
    + destruct (high_severity input) eqn:E; [| reflexivity].
      apply high_severity_spec in E as (e & He & Hs).
      now destruct (Hh e He).
    + unfold missing_headers.
      destruct (is_str "webapp" (field "type" input)) eqn:E;
        [| reflexivity].
      apply is_str_spec in E. now rewrite (Hm E).
    + unfold plain_http.
      destruct (is_str "http" (field "protocol" input)) eqn:E;
        [| reflexivity].
      apply is_str_spec in E. contradiction.
Qed.
End PolicyFacts.


Section PolicyEdges.
Import Policy.

(** X2. An input that has none of the keys [vulnerabilities], [type] and
    [protocol] (an empty object, or a document that is not an object) is
    never denied: a missing key makes a rule undefined, not an error, and
    without [type] the header rule cannot fire even when there are no
    headers. *)
Theorem policy_missing_keys_allowed (input : json) :
  field "vulnerabilities" input = None ->
  field "type" input = None ->
  field "protocol" input = None ->
  deny input = ∅.
Proof.
  intros Hv Ht Hp. apply deny_empty.
  unfold high_severity, vulnerabilities, missing_headers, plain_http.
  now rewrite Hv, Ht, Hp.
Qed.

Lemma policy_missing_keys_allowed_witness :
  field "type" (JObj {[ "headers" := JObj ∅ ]}) = None
  /\ deny (JObj {[ "headers" := JObj ∅ ]}) = ∅.
Proof.
  assert (H : forall k, k <> "headers" ->
                field k (JObj {[ "headers" := JObj ∅ ]}) = None).
  { intros k Hk. simpl. now apply lookup_singleton_ne. }
  split; [now apply H |].
  apply policy_missing_keys_allowed; now apply H.
Defined.

Lemma with_vulnerabilities_field (vs : list json) (input : json)
    (k : string) :
  k <> "vulnerabilities" ->
  field k (with_vulnerabilities vs input) = field k input.
Proof.
  intros Hk. destruct input; simpl; try reflexivity.
  now apply lookup_insert_ne.
Qed.

(** X3. Reporting more vulnerabilities never lifts a denial: whatever an
    object input is denied for with the vulnerabilities [vs], it is still
    denied for with [vs ++ more]; the other two rules do not read the
    list. *)
Theorem deny_monotone_in_vulnerabilities
    (m : gmap string json) (vs more : list json) :
  deny (with_vulnerabilities vs (JObj m))
  ⊆ deny (with_vulnerabilities (vs ++ more) (JObj m)).
Proof.
  intros msg. rewrite !deny_elem.
  unfold missing_headers, plain_http, content_type_options.
  rewrite !with_vulnerabilities_field by discriminate.
  intros [[-> Hh] | H]; [left | right; exact H].
  split; [reflexivity |].
  revert Hh. unfold high_severity, vulnerabilities. simpl.
  rewrite !lookup_insert_eq. simpl. rewrite existsb_app.
  now intros ->.
Qed.

(** X4. For a webapp the header rule fires exactly when
    X-Content-Type-Options is absent (no [headers], or no such key) or is
    [false]; every other value, [null] and the empty string included,
    satisfies the policy: the value of the header is not checked. *)
Theorem headers_rule_iff (input : json) :
  field "type" input = Some (JStr "webapp") ->
  (msg_headers ∈ deny input
   <-> content_type_options input = None
       \/ content_type_options input = Some (JBool false)).
Proof.
  intros Ht. rewrite deny_elem. unfold missing_headers.
  apply is_str_spec in Ht. rewrite Ht. simpl.
  unfold msg_headers, msg_high, msg_http.
  destruct (content_type_options input) as [[| [|] | | | |] |]; simpl;
    split; intros H; try (intuition congruence);
    try (right; left; split; reflexivity).
Qed.

Lemma headers_rule_iff_witness :
  field "type"
    (JObj {[ "type" := JStr "webapp";
             "headers" := JObj {[ "X-Content-Type-Options" := JNull ]} ]})
  = Some (JStr "webapp")
  /\ ~ msg_headers
        ∈ deny (JObj {[ "type" := JStr "webapp";
                        "headers" :=
                          JObj {[ "X-Content-Type-Options" := JNull ]} ]}).
Proof.
  assert (Ht : field "type"
                 (JObj {[ "type" := JStr "webapp";
                          "headers" :=
                            JObj {[ "X-Content-Type-Options" := JNull ]} ]})
               = Some (JStr "webapp")) by reflexivity.
  split; [exact Ht |].
  intros Hin. apply (headers_rule_iff _ Ht) in Hin.
  destruct Hin as [H | H]; vm_compute in H; discriminate.
Defined.
End PolicyEdges.

(** ** The BLE diagnostic tool *)

Section BleFacts.
Import PyDict Ble.

Lemma scan_loop_find (lower : string -> string)
    (devices : list BLEDevice) (self : BLEDiagnostics)
    (lg : list LogRecord) :
  scan_loop lower devices (self, lg)
  = match List.find (ends_scan lower self) devices with
    | Some d =>
        match name d with
        | None => (inl attribute_error, (self, lg))
        | Some n =>
            (inr (Some d),
             (with_address self (address d), lg ++ [found_record n d]))
        end
    | None => (inr None, (self, lg ++ [(ERROR, "Device not found")]))
    end.
Proof.
  induction devices as [| d rest IH]; simpl.
  - reflexivity.
  - unfold bind at 1. unfold get_self at 1. cbv beta iota. cbn [fst].
    unfold ends_scan at 1, name_matches.
    destruct (name d) as [n |] eqn:Hn.
    + destruct (contains (lower (device_name self)) (lower n)).
      * rewrite Hn. reflexivity.
      * exact IH.
    + rewrite Hn. reflexivity.
Qed.

Lemma scan_for_device_find (lower : string -> string)
    (devices : list BLEDevice) (self : BLEDiagnostics)
    (lg : list LogRecord) :
  scan_for_device lower (inr devices) (self, lg)
  = match List.find (ends_scan lower self) devices with
    | Some d =>
        match name d with
        | None => (inl attribute_error, (self, lg ++ [scanning_record self]))
        | Some n =>
            (inr (Some d),
             (with_address self (address d),
              lg ++ [scanning_record self; found_record n d]))
        end
    | None =>
        (inr None,
         (self, lg ++ [scanning_record self; (ERROR, "Device not found")]))
    end.
Proof.
  unfold scan_for_device, bind, get_self, logger, await, ret. simpl.
  rewrite scan_loop_find.
  destruct (List.find (ends_scan lower self) devices) as [d |];
    [destruct (name d) |]; now rewrite <- ?app_assoc.
Qed.

Lemma find_first_match {A : Type} (f : A -> bool) (pre post : list A)
    (d : A) :
  Forall (fun x => f x = false) pre -> f d = true ->
  List.find f (pre ++ d :: post) = Some d.
Proof.
  induction 1 as [| x r Hx _ IH]; intros Hd; simpl.
  - now rewrite Hd.
  - rewrite Hx. now apply IH.
Qed.

Lemma find_no_match {A : Type} (f : A -> bool) (l : list A) :
  Forall (fun x => f x = false) l -> List.find f l = None.
Proof. induction 1 as [| x r Hx _ IH]; simpl; [| rewrite Hx]; auto. Qed.

(** X5. [scan_for_device] returns the first discovered device whose name
    contains the wanted name, both in lower case, when every device
    discovered before it has a name, one that does not match: it stores the
    address of that device in [self], logs it, and does not look at the
    devices found later; the wanted name is left as it was. *)
Theorem scan_returns_first_match (lower : string -> string)
    (self : BLEDiagnostics) (lg : list LogRecord)
    (pre post : list BLEDevice) (d : BLEDevice) (n : string) :
  Forall (fun x => ends_scan lower self x = false) pre ->
  name d = Some n ->
  name_matches lower self n = true ->
  scan_for_device lower (inr (pre ++ d :: post)) (self, lg)
  = (inr (Some d),
     (with_address self (address d),
      lg ++ [scanning_record self; found_record n d])).
Proof.
  intros Hpre Hn Hd. rewrite scan_for_device_find.
  rewrite (find_first_match _ pre post d Hpre)
    by (unfold ends_scan; now rewrite Hn).
  now rewrite Hn.
Qed.

Lemma scan_returns_first_match_witness :
  name_matches ascii_lower (init None) "my CHORUS ble v2" = true
  /\ (scan_for_device ascii_lower
        (inr ([mkDevice (Some "Headset") "11:22"]
              ++ mkDevice (Some "my CHORUS ble v2") "AA:BB"
                 :: [mkDevice None "CC:DD"]))
        (start (init None))).1
     = inr (Some (mkDevice (Some "my CHORUS ble v2") "AA:BB")).
Proof.
  assert (H : name_matches ascii_lower (init None) "my CHORUS ble v2"
              = true) by reflexivity.
  split; [exact H |].
  assert (Hpre : Forall (fun x => ends_scan ascii_lower (init None) x = false)
                   [mkDevice (Some "Headset") "11:22"])
    by (repeat constructor).
  unfold start.
  now rewrite (scan_returns_first_match ascii_lower (init None) [] _
                 [mkDevice None "CC:DD"]
                 (mkDevice (Some "my CHORUS ble v2") "AA:BB") _
                 Hpre eq_refl H).
Defined.

(** X6. When every discovered device has a name and no name matches (in
    particular when nothing was discovered), [scan_for_device] returns
    [None], logs the error "Device not found" and leaves [self] untouched:
    an address stored by an earlier scan stays in place. *)
Theorem scan_without_match_keeps_address (lower : string -> string)
    (self : BLEDiagnostics) (lg : list LogRecord)
    (devices : list BLEDevice) :
  Forall (fun x => ends_scan lower self x = false) devices ->
  scan_for_device lower (inr devices) (self, lg)
  = (inr None,
     (self, lg ++ [scanning_record self; (ERROR, "Device not found")])).
Proof.
  intros H. rewrite scan_for_device_find. now rewrite (find_no_match _ _ H).
Qed.

Lemma scan_without_match_keeps_address_witness :
  Forall (fun x => ends_scan ascii_lower
                     (with_address (init None) "AA:BB") x = false)
    [mkDevice (Some "Headset") "11:22"]
  /\ device_address
       (scan_for_device ascii_lower
          (inr [mkDevice (Some "Headset") "11:22"])
          (start (with_address (init None) "AA:BB"))).2.1
     = Some "AA:BB".
Proof.
  assert (H : Forall
                (fun x => ends_scan ascii_lower
                            (with_address (init None) "AA:BB") x = false)
                [mkDevice (Some "Headset") "11:22"]) by (repeat constructor).
  split; [exact H |].
  unfold start.
  now rewrite (scan_without_match_keeps_address ascii_lower _ [] _ H).
Defined.

(** X18. A discovered device without a name makes [scan_for_device] raise
    the AttributeError of [None.lower()] when no device before it matched:
    the scan stops there, a matching device found later is never reached,
    and [self] is left as it was. *)
Theorem scan_raises_on_nameless_device (lower : string -> string)
    (self : BLEDiagnostics) (lg : list LogRecord)
    (pre post : list BLEDevice) (d : BLEDevice) :
  Forall (fun x => ends_scan lower self x = false) pre ->
  name d = None ->
  scan_for_device lower (inr (pre ++ d :: post)) (self, lg)
  = (inl attribute_error, (self, lg ++ [scanning_record self])).
Proof.
  intros Hpre Hn. rewrite scan_for_device_find.
  rewrite (find_first_match _ pre post d Hpre)
    by (unfold ends_scan; now rewrite Hn).
  now rewrite Hn.
Qed.

Lemma scan_raises_on_nameless_device_witness :
  name (mkDevice None "11:22") = None
  /\ (scan_for_device ascii_lower
        (inr ([] ++ mkDevice None "11:22"
                 :: [mkDevice (Some "Chorus BLE") "AA:BB"]))
        (start (init None))).1
     = inl attribute_error.
Proof.
  assert (H : name (mkDevice None "11:22") = None) by reflexivity.
  split; [exact H |].
  unfold start.
  now rewrite (scan_raises_on_nameless_device ascii_lower (init None) []
                 [] [mkDevice (Some "Chorus BLE") "AA:BB"] _
                 (List.Forall_nil _) H).
Defined.

(** *** Sessions *)

Lemma test_connection_cases (client : string -> Session)
    (self : BLEDiagnostics) (lg : list LogRecord) :
  test_connection client (self, lg)
  = match usable_address (device_address self) with
    | None =>
        (inr false, (self, lg ++ [(ERROR, "No device address available")]))
    | Some a =>
        match connect_error (client a), disconnect_error (client a) with
        | Some e, _ =>
            (inr false,
             (self, lg ++ [(ERROR, String.append "Connection failed: " e)]))
        | None, Some e =>
            (inr false,
             (self,
              lg ++ connected_records (client a)
                 ++ [(ERROR, String.append "Connection failed: " e)]))
        | None, None =>
            (inr true, (self, lg ++ connected_records (client a)))
        end
    end.
Proof.
  unfold test_connection, bind, get_self. simpl.
  destruct (usable_address (device_address self)) as [a |];
    [| reflexivity].
  unfold try_except, async_with, raise, bind, logger, ret,
    connected_records. simpl.
  destruct (connect_error (client a)) as [e |]; [reflexivity |].
  destruct (disconnect_error (client a)) as [e |]; simpl;
    now rewrite <- !app_assoc.
Qed.

Lemma discover_services_cases (client : string -> Session)
    (self : BLEDiagnostics) (lg : list LogRecord) :
  exists (r : option (list (string * ServiceInfo))) (more : list LogRecord),
    discover_services client (self, lg) = (inr r, (self, lg ++ more))
    /\ (usable_address (device_address self) = None ->
        r = None /\ more = []).
Proof.
  unfold discover_services, bind, get_self. simpl.
  destruct (usable_address (device_address self)) as [a |].
  - unfold try_except, async_with, raise, bind, logger, ret, await. simpl.
    destruct (connect_error (client a)) as [e |].
    { eexists _, [_]. split; [reflexivity | discriminate]. }
    destruct (get_services (client a)) as [e | services],
      (disconnect_error (client a)) as [e' |]; simpl.
    + eexists _, [_]. split; [reflexivity | discriminate].
    + eexists _, [_]. split; [reflexivity | discriminate].
    + eexists _, [_; _]. rewrite <- !app_assoc.
      split; [reflexivity | discriminate].
    + eexists _, [_]. split; [reflexivity | discriminate].
  - exists None, []. rewrite app_nil_r. split; [reflexivity | auto].
Qed.

(** X7. [test_connection] and [discover_services] never raise and never
    change [self]: whatever the session does (connecting, listing the
    services or disconnecting may fail), they return a value and only append
    to the log; without a usable address (none stored, or an empty one)
    they return [False] and [None] without opening a session. *)
Theorem sessions_never_raise (client : string -> Session)
    (self : BLEDiagnostics) (lg : list LogRecord) :
  (exists (b : bool) (more : list LogRecord),
      test_connection client (self, lg) = (inr b, (self, lg ++ more))
      /\ (usable_address (device_address self) = None ->
          b = false
          /\ more = [(ERROR, "No device address available")]))
  /\ (exists (r : option (list (string * ServiceInfo)))
             (more : list LogRecord),
        discover_services client (self, lg) = (inr r, (self, lg ++ more))
        /\ (usable_address (device_address self) = None ->
            r = None /\ more = [])).
Proof.
  split; [| apply discover_services_cases].
  rewrite test_connection_cases.
  destruct (usable_address (device_address self)) as [a |].
  - destruct (connect_error (client a)) as [e |],
      (disconnect_error (client a)) as [e' |];
      eexists _, _; (split; [reflexivity | discriminate]).
  - eexists _, _. split; [reflexivity | auto].
Qed.
(** *** The whole diagnostic *)

Lemma bind_run {A B : Type} (m : Py A) (k : A -> Py B)
    (st : BLEDiagnostics * list LogRecord) :
  bind m k st
  = match m st with
    | (inl e, st') => (inl e, st')
    | (inr a, st') => k a st'
    end.
Proof. reflexivity. Qed.

Lemma bind_logger {B : Type} (lvl : Level) (msg : string)
    (k : unit -> Py B) (self : BLEDiagnostics) (lg : list LogRecord) :
  bind (logger lvl msg) k (self, lg) = k tt (self, lg ++ [(lvl, msg)]).
Proof. reflexivity. Qed.

Lemma log_services_records (items : list (string * ServiceInfo))
    (self : BLEDiagnostics) (lg : list LogRecord) :
  log_services items (self, lg)
  = (inr tt, (self, lg ++ service_records items)).
Proof.
  revert lg. induction items as [| [u info] rest IH]; intros lg; simpl.
  - unfold ret. now rewrite app_nil_r.
  - unfold bind, logger. simpl. rewrite IH.
    now rewrite <- !app_assoc.
Qed.

Lemma run_after_connection (second : string -> Session)
    (self : BLEDiagnostics) (lg : list LogRecord) :
  exists more : list LogRecord,
    (let! services := discover_services second in
     match services with
     | Some (item :: items) =>
         logger INFO "Services discovered successfully" >>
         log_services (item :: items)
     | _ => ret tt
     end >>
     logger INFO (times 50 "=") >>
     logger INFO "Diagnostic complete" >>
     ret true) (self, lg)
    = (inr true, (self, lg ++ more)).
Proof.
  destruct (discover_services_cases second self lg)
    as (r & more & Heq & _).
  unfold bind at 1. rewrite Heq.
  destruct r as [[| item items] |].
  - unfold bind, logger, ret. simpl.
    eexists. rewrite <- !app_assoc. reflexivity.
  - unfold bind at 1. unfold bind at 1. unfold logger at 1. simpl fst.
    cbv beta iota. simpl snd. simpl fst.
    rewrite log_services_records.
    unfold bind, logger, ret. simpl.
    eexists. rewrite <- !app_assoc. reflexivity.
  - unfold bind, logger, ret. simpl.
    eexists. rewrite <- !app_assoc. reflexivity.
Qed.
Lemma run_full_diagnostic_result (lower : string -> string) (now : string)
    (scan : string + list BLEDevice) (first second : string -> Session)
    (self : BLEDiagnostics) (lg : list LogRecord) :
  (run_full_diagnostic lower now scan first second (self, lg)).1
  = match scan with
    | inl e => inl e
    | inr devices =>
        match List.find (ends_scan lower self) devices with
        | None => inr false
        | Some d =>
            match name d with
            | None => inl attribute_error
            | Some _ =>
                match usable_address (Some (address d)) with
                | None => inr false
                | Some a =>
                    match connect_error (first a),
                          disconnect_error (first a)
                    with
                    | None, None => inr true
                    | _, _ => inr false
                    end
                end
            end
        end
    end.
Proof.
  unfold run_full_diagnostic.
  rewrite !bind_logger, bind_run.
  destruct scan as [e | devices].
  - reflexivity.
  - rewrite scan_for_device_find.
    destruct (List.find (ends_scan lower self) devices) as [d |];
      [| reflexivity].
    destruct (name d) as [n |]; [| reflexivity].
    rewrite bind_run, test_connection_cases.
    change (device_address (with_address self (address d)))
      with (Some (address d)).
    destruct (usable_address (Some (address d))) as [a |]; [| reflexivity].
    destruct (connect_error (first a)) as [e |]; [reflexivity |].
    destruct (disconnect_error (first a)) as [e |]; [reflexivity |].
    change (negb true) with false. cbv iota.
    match goal with
    | |- context [bind (discover_services second) ?k (?sf, ?l)] =>
        destruct (run_after_connection second sf l) as (more & Heq)
    end.
    now rewrite Heq.
Qed.

(** X8. [run_full_diagnostic] returns [True] exactly when the discovery
    succeeds, the scan ends at a device whose name matches (no device
    without a name was discovered before it), that device has a non-empty
    address, and the first session on that address connects and disconnects
    without error. The second session, the service discovery, has no part
    in the verdict: its failure is logged and ignored. *)
Theorem run_full_diagnostic_true_iff (lower : string -> string)
    (now : string)
    (scan : string + list BLEDevice) (first second : string -> Session)
    (self : BLEDiagnostics) (lg : list LogRecord) :
  (run_full_diagnostic lower now scan first second (self, lg)).1 = inr true
  <-> exists (devices : list BLEDevice) (d : BLEDevice) (n : string),
        scan = inr devices
        /\ List.find (ends_scan lower self) devices = Some d
        /\ name d = Some n
        /\ address d <> ""
        /\ connect_error (first (address d)) = None
        /\ disconnect_error (first (address d)) = None.
Proof.
  rewrite run_full_diagnostic_result. split.
  - destruct scan as [e | devices]; [discriminate |].
    destruct (List.find (ends_scan lower self) devices) as [d |] eqn:Hf;
      [| discriminate].
    destruct (name d) as [n |] eqn:Hn; [| discriminate].
    destruct (address d) as [| c r] eqn:Ha; simpl; [discriminate |].
    destruct (connect_error (first (String c r))) eqn:Hc; [discriminate |].
    destruct (disconnect_error (first (String c r))) eqn:Hd;
      [discriminate |].
    intros _. exists devices, d, n. rewrite Ha.
    split; [reflexivity |]. split; [exact Hf |]. split; [exact Hn |].
    split; [discriminate |]. split; assumption.
  - intros (devices & d & n & -> & -> & -> & Ha & Hc & Hd).
    destruct (address d) as [| c r]; [contradiction |]. simpl.
    now rewrite Hc, Hd.
Qed.

(** X9. Two exceptions leave [run_full_diagnostic], and no other: the one
    of the discovery, when [BleakScanner.discover] raises, and the
    AttributeError of the scan, when a device without a name is discovered
    before any match; failures of the two sessions are caught. *)
Theorem run_full_diagnostic_raises_iff (lower : string -> string)
    (now : string)
    (scan : string + list BLEDevice) (first second : string -> Session)
    (self : BLEDiagnostics) (lg : list LogRecord) (e : string) :
  (run_full_diagnostic lower now scan first second (self, lg)).1 = inl e
  <-> scan = inl e
      \/ (e = attribute_error
          /\ exists (devices : list BLEDevice) (d : BLEDevice),
               scan = inr devices
               /\ List.find (ends_scan lower self) devices = Some d
               /\ name d = None).
Proof.
  rewrite run_full_diagnostic_result.
  destruct scan as [e' | devices].
  - split; [intros [= ->]; now left |].
    intros [[= ->] | (_ & devices & d & [=] & _)]. reflexivity.
  - destruct (List.find (ends_scan lower self) devices) as [d |] eqn:Hf.
    + destruct (name d) as [n |] eqn:Hn.
      * split.
        -- destruct (usable_address (Some (address d))) as [a |];
             [| discriminate].
           destruct (connect_error (first a)), (disconnect_error (first a));
             discriminate.
        -- intros [[=] | (_ & devices' & d' & [= <-] & Hf' & Hn')].
           congruence.
      * split.
        -- intros [= <-]. right. split; [reflexivity |].
           exists devices, d. auto.
        -- intros [[=] | (-> & _)]. reflexivity.
    + split; [discriminate |].
      intros [[=] | (_ & devices' & d' & [= <-] & Hf' & _)]. congruence.
Qed.

(** *** The dictionary of services *)

Lemma dict_get_set_eq {V : Type} (k : string) (v : V)
    (d : list (string * V)) :
  dict_get k (dict_set k v d) = Some v.
Proof.
  induction d as [| [k' v'] r IH]; simpl.
  - now rewrite String.eqb_refl.
  - destruct (String.eqb k' k) eqn:E; simpl; now rewrite E.
Qed.

Lemma dict_get_set_ne {V : Type} (k k' : string) (v : V)
    (d : list (string * V)) :
  k <> k' -> dict_get k' (dict_set k v d) = dict_get k' d.
Proof.
  intros Hne. induction d as [| [k0 v0] r IH]; simpl.
  - apply String.eqb_neq in Hne. now rewrite Hne.
  - destruct (String.eqb k0 k) eqn:E; simpl.
    + apply String.eqb_eq in E. subst k0.
      apply String.eqb_neq in Hne. now rewrite Hne.
    + now rewrite IH.
Qed.

Lemma dict_set_keys {V : Type} (k : string) (v : V)
    (d : list (string * V)) :
  map fst (dict_set k v d)
  = if existsb (String.eqb k) (map fst d) then map fst d
    else map fst d ++ [k].
Proof.
  induction d as [| [k' v'] r IH]; simpl.
  - reflexivity.
  - rewrite (String.eqb_sym k k').
    destruct (String.eqb k' k) eqn:E; simpl; [reflexivity |].
    rewrite IH. now destruct (existsb (String.eqb k) (map fst r)).
Qed.

Lemma dict_set_keys_NoDup {V : Type} (k : string) (v : V)
    (d : list (string * V)) :
  NoDup (map fst d) -> NoDup (map fst (dict_set k v d)).
Proof.
  intros Hnd. rewrite dict_set_keys.
  destruct (existsb (String.eqb k) (map fst d)) eqn:E; [exact Hnd |].
  apply NoDup_app. split; [exact Hnd |]. split.
  - intros x Hx Hk. apply list_elem_of_singleton in Hk. subst x.
    apply list_elem_of_In, existsb_eqb_In in Hx. congruence.
  - apply NoDup_singleton.
Qed.

Lemma dict_set_length {V : Type} (k : string) (v : V)
    (d : list (string * V)) :
  length (dict_set k v d) <= S (length d).
Proof.
  induction d as [| [k' v'] r IH]; simpl; [lia |].
  destruct (String.eqb k' k); simpl; lia.
Qed.

Lemma service_info_snoc (services : list Service) (s : Service) :
  service_info (services ++ [s])
  = dict_set (uuid s) (info_of s) (service_info services).
Proof. unfold service_info. now rewrite fold_left_app. Qed.

Lemma service_info_get (u : string) (services : list Service) :
  dict_get u (service_info services)
  = option_map info_of (last_with_uuid u services).
Proof.
  induction services as [| s r IH] using rev_ind.
  - reflexivity.
  - rewrite service_info_snoc. unfold last_with_uuid.
    rewrite rev_app_distr. simpl.
    destruct (String.eqb (uuid s) u) eqn:E.
    + apply String.eqb_eq in E. subst u. apply dict_get_set_eq.
    + apply String.eqb_neq in E. rewrite dict_get_set_ne by exact E.
      exact IH.
Qed.

Lemma service_info_NoDup (services : list Service) :
  NoDup (map fst (service_info services)).
Proof.
  induction services as [| s r IH] using rev_ind.
  - constructor.
  - rewrite service_info_snoc. now apply dict_set_keys_NoDup.
Qed.

Lemma service_info_length (services : list Service) :
  length (service_info services) <= length services.
Proof.
  induction services as [| s r IH] using rev_ind.
  - simpl. lia.
  - rewrite service_info_snoc, length_app. simpl.
    pose proof (dict_set_length (uuid s) (info_of s) (service_info r)).
    lia.
Qed.

(** X10. When the session goes through, [discover_services] logs the
    number of services the device listed and returns a dictionary with one
    entry per distinct service uuid: looking a uuid up gives the description
    and the characteristics of the last service listed with it, so services
    that share a uuid overwrite one another and the dictionary can be
    shorter than the number logged. *)
Theorem discover_services_last_wins (client : string -> Session)
    (self : BLEDiagnostics) (lg : list LogRecord) (a : string)
    (services : list Service) :
  usable_address (device_address self) = Some a ->
  connect_error (client a) = None ->
  get_services (client a) = inr services ->
  disconnect_error (client a) = None ->
  discover_services client (self, lg)
  = (inr (Some (service_info services)),
     (self,
      lg ++ [(INFO,
              String.append "Found "
                (String.append (pretty (length services)) " services"))]))
  /\ (forall u : string,
        dict_get u (service_info services)
        = option_map info_of (last_with_uuid u services))
  /\ NoDup (map fst (service_info services))
  /\ length (service_info services) <= length services.
Proof.
  intros Ha Hc Hs Hd. split; [| split; [| split]].
  - unfold discover_services. rewrite bind_run. unfold get_self. simpl.
    rewrite Ha. unfold try_except, async_with. rewrite Hc, Hd, Hs.
    reflexivity.
  - intros u. apply service_info_get.
  - apply service_info_NoDup.
  - apply service_info_length.
Qed.

Lemma discover_services_last_wins_witness :
  usable_address (device_address (with_address (init None) "AA:BB"))
  = Some "AA:BB"
  /\ dict_get "180a"
       (service_info
          [ mkService "180a" "old" [mkCharacteristic "2a29" ["read"]];
            mkService "180f" "battery" [];
            mkService "180a" "new" [] ])
     = Some {| info_description := "new"; info_characteristics := [] |}.
Proof.
  pose (s := mkSession None true
               (inr [ mkService "180a" "old"
                        [mkCharacteristic "2a29" ["read"]];
                      mkService "180f" "battery" [];
                      mkService "180a" "new" [] ]) None).
  assert (Ha : usable_address
                 (device_address (with_address (init None) "AA:BB"))
               = Some "AA:BB") by reflexivity.
  split; [exact Ha |].
  destruct (discover_services_last_wins (fun _ => s)
              (with_address (init None) "AA:BB") [] "AA:BB" _
              Ha eq_refl eq_refl eq_refl) as (_ & Hget & _).
  rewrite Hget. reflexivity.
Defined.

(** *** An empty wanted name *)

Lemma contains_empty (hay : string) : contains "" hay = true.
Proof. destruct hay; reflexivity. Qed.

(** X11. A tool built with the empty string as device name matches every
    device that has a name ([lower] of the empty string being empty, as
    [str.lower] has it): [scan_for_device] then returns the first device
    discovered when that device has a name, whatever the name is, and
    stores its address. *)
Theorem scan_with_empty_name_takes_first (lower : string -> string)
    (self : BLEDiagnostics) (lg : list LogRecord)
    (d : BLEDevice) (n : string) (rest : list BLEDevice) :
  lower "" = "" ->
  device_name self = "" ->
  name d = Some n ->
  scan_for_device lower (inr (d :: rest)) (self, lg)
  = (inr (Some d),
     (with_address self (address d),
      lg ++ [scanning_record self; found_record n d])).
Proof.
  intros Hlower Hname Hn. rewrite scan_for_device_find. simpl.
  unfold ends_scan at 1, name_matches. rewrite Hn, Hname, Hlower.
  rewrite contains_empty. now rewrite Hn.
Qed.

Lemma scan_with_empty_name_takes_first_witness :
  ascii_lower "" = ""
  /\ (scan_for_device ascii_lower (inr [mkDevice (Some "Headset") "11:22"])
        (start (init (Some "")))).1
     = inr (Some (mkDevice (Some "Headset") "11:22")).
Proof.
  assert (H : ascii_lower "" = "") by reflexivity.
  split; [exact H |].
  unfold start.
  now rewrite (scan_with_empty_name_takes_first ascii_lower
                 (init (Some "")) [] (mkDevice (Some "Headset") "11:22")
                 "Headset" [] H eq_refl eq_refl).
Defined.
End BleFacts.

(** ** The consolidated report *)

Section ReportFacts.
Import PyDict Policy Report.

Lemma aggregate_agree (load : string -> string + json)
    (fs1 fs2 : gmap string Entry) (files : list string)
    (acc : list (string * json)) :
  (forall f, In f files -> fs1 !! f = fs2 !! f) ->
  aggregate load fs1 files acc = aggregate load fs2 files acc.
Proof.
  revert acc. induction files as [| f rest IH]; intros acc Hagree; simpl.
  - reflexivity.
  - rewrite <- (Hagree f) by now left.
    destruct (fs1 !! f) as [[content | e] |];
      [destruct (load content) | |]; try reflexivity;
      apply IH; intros g Hg; apply Hagree; now right.
Qed.

(** X12. When every scan report that exists can be read and parses, the
    loop of the report script ends with [scans] holding the parsed content
    of those of gitleaks-report.json, checkov-report.json and
    npm-audit.json that exist, under their names and in that order; with
    none of them present [scans] stays empty. *)
Theorem report_generated (load : string -> string + json)
    (fs : gmap string Entry) :
  (forall f, In f scan_files -> failure load fs f = None) ->
  aggregate load fs scan_files []
  = inr (omap (loaded load fs) scan_files).
Proof.
  intros Hok.
  pose proof (Hok "gitleaks-report.json" (or_introl eq_refl)) as H1.
  pose proof (Hok "checkov-report.json" (or_intror (or_introl eq_refl)))
    as H2.
  pose proof (Hok "npm-audit.json"
                (or_intror (or_intror (or_introl eq_refl)))) as H3.
  unfold failure in H1, H2, H3. unfold scan_files, loaded. simpl.
  destruct (fs !! "gitleaks-report.json") as [[t1 | e1] |];
    [destruct (load t1); [discriminate |] | discriminate |];
    (destruct (fs !! "checkov-report.json") as [[t2 | e2] |];
     [destruct (load t2); [discriminate |] | discriminate |]);
    (destruct (fs !! "npm-audit.json") as [[t3 | e3] |];
     [destruct (load t3); [discriminate |] | discriminate |]);
    reflexivity.
Qed.

Lemma report_generated_witness :
  (forall f, In f scan_files ->
     failure (fun _ => inr (JObj ∅))
       ({[ "npm-audit.json" := File "{}" ]} : gmap string Entry) f = None)
  /\ aggregate (fun _ => inr (JObj ∅))
       ({[ "npm-audit.json" := File "{}" ]} : gmap string Entry)
       scan_files []
     = inr [("npm-audit.json", JObj ∅)].
Proof.
  assert (H : forall f, In f scan_files ->
     failure (fun _ => inr (JObj ∅))
       ({[ "npm-audit.json" := File "{}" ]} : gmap string Entry) f = None).
  { intros f [<- | [<- | [<- | []]]]; reflexivity. }
  split; [exact H |].
  now rewrite (report_generated (fun _ => inr (JObj ∅)) _ H).
Defined.


(** X14. The report depends on the three scan files only: two working
    directories that agree on gitleaks-report.json, checkov-report.json and
    npm-audit.json give the same outcome and the same [scans], whatever
    else they hold (the TruffleHog, Terrascan, Trivy and OPA reports are
    never read). *)
Theorem report_reads_three_files (load : string -> string + json)
    (fs1 fs2 : gmap string Entry) :
  (forall f, In f scan_files -> fs1 !! f = fs2 !! f) ->
  aggregate load fs1 scan_files [] = aggregate load fs2 scan_files [].
Proof. apply aggregate_agree. Qed.

Lemma report_reads_three_files_witness :
  (forall f, In f scan_files ->
     ({[ "trufflehog-report.json" := File "[1]" ]} : gmap string Entry) !! f
     = (∅ : gmap string Entry) !! f)
  /\ aggregate (fun _ => inl "no")
       {[ "trufflehog-report.json" := File "[1]" ]} scan_files []
     = inr [].
Proof.
  assert (H : forall f, In f scan_files ->
     ({[ "trufflehog-report.json" := File "[1]" ]} : gmap string Entry) !! f
     = (∅ : gmap string Entry) !! f).
  { intros f [<- | [<- | [<- | []]]]; reflexivity. }
  split; [exact H |].
  now rewrite (report_reads_three_files (fun _ => inl "no") _ ∅ H).
Defined.
End ReportFacts.

(** ** The secrets gate *)

Section SecretsGateFacts.
Import SecretsGate.





End SecretsGateFacts.

(** ** The landing page over any feature list *)

Section LandingFacts.


Lemma flat_map_nil {A B : Type} (f : A -> list B) (l : list A) :
  Forall (fun x => f x = []) l -> flat_map f l = [].
Proof. induction 1 as [| x r Hx _ IH]; simpl; [| rewrite Hx, IH]; auto. Qed.





(** X17. Rendering leaves no [Feature] element behind and is idempotent:
    what [Feature] returns is made of host, Svg and Heading elements only,
    so one pass expands every feature block and a second pass changes
    nothing. *)
Theorem render_expands_every_feature (n : ReactNode) :
  feature_blocks (render n) = [] /\ render (render n) = render n.
Proof.
  induction n as [s | cs IH | tag c cs IH | svg c role | a cs IH
                 | k t svg d [IHb IHr]] using ReactNode_tree_ind; simpl.
  - auto.
  - split.
    + rewrite flat_map_concat_map, map_map, <- flat_map_concat_map.
      apply flat_map_nil. eapply Forall_impl; [exact IH | now intros x []].
    + f_equal. rewrite map_map. apply map_ext_Forall.
      eapply Forall_impl; [exact IH | now intros x []].
  - split.
    + rewrite flat_map_concat_map, map_map, <- flat_map_concat_map.
      apply flat_map_nil. eapply Forall_impl; [exact IH | now intros x []].
    + f_equal. rewrite map_map. apply map_ext_Forall.
      eapply Forall_impl; [exact IH | now intros x []].
  - auto.
  - split.
    + rewrite flat_map_concat_map, map_map, <- flat_map_concat_map.
      apply flat_map_nil. eapply Forall_impl; [exact IH | now intros x []].
    + f_equal. rewrite map_map. apply map_ext_Forall.
      eapply Forall_impl; [exact IH | now intros x []].
  - unfold Feature. simpl. rewrite IHb, IHr. split; reflexivity.
Qed.
End LandingFacts.
